(** * Dependency selection of the package-manager back ends

    A shallow embedding of [src/packageManagers/deno.ts] (the lockfile
    resolver) and [src/packageManagers/yarn.ts] (the tree resolver), with
    the small helpers of [npm.ts] and [util/exec.ts].

    Conventions of the embedding.

    - A JavaScript string is a [string] (code units below 256); offsets
      are [Z], because the source computes with the [-1] that [indexOf]
      returns.
    - A JavaScript object used as a map (a parsed JSON object) is an
      association list holding its own properties in enumeration order;
      its keys are pairwise distinct, and none is an array index (which
      would be enumerated first).  [Js.lookup] reads an own property;
      [Js.read] reads as [obj[key]] does on an object made by
      [JSON.parse], which also finds the members of [Object.prototype].
    - An array is a [list]; [push] appends at the end and [pop] removes
      the last element.
    - A thrown exception is a value [Throw e]; a function that may throw
      returns a [result].
    - What the source gets from Node or from a third-party package
      ([path.join], [path.dirname], [fs] reads, [realpath], [parseSemver])
      is a [Variable] of the enclosing [Section]: every theorem holds for
      any behaviour of these collaborators. *)

From Stdlib Require Import String Ascii List ZArith Lia Bool Arith.
Import ListNotations.

Set Warnings "-abstract-large-number,-register-all".

Open Scope string_scope.
Open Scope Z_scope.

(* ================================================================= *)
(** ** Exceptions *)

Inductive error : Type :=
| Error (message : string)   (* [throw new Error(message)] *)
| TypeError                  (* a property read on [undefined], [Object.keys(undefined)] *)
| SyntaxError                (* [JSON.parse] of a malformed text *)
| Rejected (path : string).  (* a rejected [fs] promise for [path] *)

Inductive result (A : Type) : Type :=
| Ok (a : A)
| Throw (e : error).

Arguments Ok {A} a.
Arguments Throw {A} e.

Definition bind {A B : Type} (r : result A) (k : A -> result B) : result B :=
  match r with
  | Ok a => k a
  | Throw e => Throw e
  end.

Declare Scope js_scope.
Notation "x <- r ;; k" := (bind r (fun x => k))
  (at level 61, r at next level, right associativity) : js_scope.
Notation "' pat <- r ;; k" := (bind r (fun x => match x with pat => k end))
  (at level 61, pat pattern, r at next level, right associativity) : js_scope.
Open Scope js_scope.

(* ================================================================= *)
(** ** JavaScript strings, arrays and objects *)

Module Js.

Definition len (s : string) : Z := Z.of_nat (String.length s).

Fixpoint drop (n : nat) (s : string) : string :=
  match n, s with
  | O, _ => s
  | S n', String _ s' => drop n' s'
  | S _, EmptyString => EmptyString
  end.

Fixpoint take (n : nat) (s : string) : string :=
  match n, s with
  | S n', String c s' => String c (take n' s')
  | _, _ => EmptyString
  end.

(** Position of the first [c] in [s], counted from the start of [s]. *)
Fixpoint find_char (c : ascii) (s : string) : option nat :=
  match s with
  | EmptyString => None
  | String d s' =>
      if Ascii.eqb d c then Some O
      else option_map S (find_char c s')
  end.

(** Position of the last [c] in [s]. *)
Fixpoint find_last_char (c : ascii) (s : string) : option nat :=
  match s with
  | EmptyString => None
  | String d s' =>
      match find_last_char c s' with
      | Some k => Some (S k)
      | None => if Ascii.eqb d c then Some O else None
      end
  end.

(** [clamp i s]: an offset brought into [0 .. s.length]. *)
Definition clamp (i : Z) (s : string) : nat :=
  Z.to_nat (Z.min (Z.max i 0) (len s)).

(** [s.indexOf(c, from)] for a one-character search string. *)
Definition indexOf (s : string) (c : ascii) (from : Z) : Z :=
  let k := clamp from s in
  match find_char c (drop k s) with
  | Some j => Z.of_nat (k + j)
  | None => -1
  end.

(** [s.lastIndexOf(c)]. *)
Definition lastIndexOf (s : string) (c : ascii) : Z :=
  match find_last_char c s with
  | Some j => Z.of_nat j
  | None => -1
  end.

(** [s.includes(c)]. *)
Definition includes (s : string) (c : ascii) : bool :=
  match find_char c s with
  | Some _ => true
  | None => false
  end.

(** [s.charAt(i)]: the empty string outside [0 .. s.length - 1]. *)
Definition charAt (s : string) (i : Z) : string :=
  if (i <? 0) || (len s <=? i) then EmptyString
  else take 1 (drop (Z.to_nat i) s).

(** A relative offset of [slice]: negative offsets count from the end. *)
Definition rel (i : Z) (s : string) : nat :=
  if i <? 0 then Z.to_nat (Z.max (len s + i) 0)
  else Z.to_nat (Z.min i (len s)).

(** [s.slice(start)] and [s.slice(start, stop)]. *)
Definition slice (s : string) (start : Z) (stop : option Z) : string :=
  let a := rel start s in
  let b := match stop with
           | Some e => rel e s
           | None => String.length s
           end in
  take (b - a) (drop a s).

(** [s.startsWith(p)]. *)
Definition startsWith (s p : string) : bool := String.prefix p s.

(** [s.replace(c, d)] with a string pattern: only the first [c] is
    replaced. *)
Fixpoint replace (s : string) (c d : ascii) : string :=
  match s with
  | EmptyString => EmptyString
  | String e s' =>
      if Ascii.eqb e c then String d s'
      else String e (replace s' c d)
  end.

(** [s.split(c)]: the pieces between every occurrence of [c]; never
    empty. *)
Fixpoint split_all (s : string) (c : ascii) : list string :=
  match s with
  | EmptyString => [EmptyString]
  | String d s' =>
      if Ascii.eqb d c then EmptyString :: split_all s' c
      else match split_all s' c with
           | piece :: pieces => String d piece :: pieces
           | [] => [String d EmptyString]
           end
  end.

(** [s.split(c, limit)]: the string is split at every [c] and only the
    first [limit] pieces are kept. *)
Definition split (s : string) (c : ascii) (limit : nat) : list string :=
  firstn limit (split_all s c).

(** A string is falsy exactly when it is empty. *)
Definition falsy (s : string) : bool :=
  match s with
  | EmptyString => true
  | _ => false
  end.

(** An optional string ([undefined] or a string) is falsy when it is
    [undefined] or empty. *)
Definition falsy_opt (o : option string) : bool :=
  match o with
  | None => true
  | Some s => falsy s
  end.

(** [`${x}`] of a value that may be [undefined]. *)
Definition show (o : option string) : string :=
  match o with
  | Some s => s
  | None => "undefined"
  end.

(** [obj[key]] on an object held as an association list. *)
Fixpoint lookup {V : Type} (key : string) (obj : list (string * V)) : option V :=
  match obj with
  | [] => None
  | (k, v) :: obj' => if String.eqb k key then Some v else lookup key obj'
  end.

(** The members of [Object.prototype], which every object made by
    [JSON.parse] inherits: functions, and the accessor [__proto__]; each
    reads as a truthy value. *)
Definition prototypeMembers : list string :=
  ["constructor"; "hasOwnProperty"; "isPrototypeOf"; "propertyIsEnumerable";
   "toLocaleString"; "toString"; "valueOf"; "__defineGetter__";
   "__defineSetter__"; "__lookupGetter__"; "__lookupSetter__"; "__proto__"].

(** What [obj[key]] finds on an object made by [JSON.parse]: an own
    property, else a member of [Object.prototype], else [undefined]. *)
Inductive Read (V : Type) : Type :=
| Own (v : V)
| Inherited
| Undefined.

Arguments Own {V} v.
Arguments Inherited {V}.
Arguments Undefined {V}.

Definition read {V : Type} (key : string) (obj : list (string * V)) : Read V :=
  match lookup key obj with
  | Some v => Own v
  | None =>
      if existsb (String.eqb key) prototypeMembers then Inherited else Undefined
  end.

(** [Object.keys(obj)]. *)
Definition keys {V : Type} (obj : list (string * V)) : list string :=
  map fst obj.

(** [arr.includes(x)] on an array of strings. *)
Fixpoint mem (x : string) (arr : list string) : bool :=
  match arr with
  | [] => false
  | y :: arr' => String.eqb y x || mem x arr'
  end.

(** [arr.pop()]: the last element and the array without it. *)
Fixpoint pop {A : Type} (arr : list A) : option (A * list A) :=
  match arr with
  | [] => None
  | x :: arr' =>
      match pop arr' with
      | None => Some (x, [])
      | Some (y, rest) => Some (y, x :: rest)
      end
  end.

(** [arr.push(x)]. *)
Definition push {A : Type} (arr : list A) (x : A) : list A :=
  (arr ++ [x])%list.

(** [set.add(x)] on a [Set] of strings held in insertion order. *)
Definition add (set : list string) (x : string) : list string :=
  if mem x set then set else push set x.

(** [Array.from(new Set(arr))]: the elements in order of first
    occurrence. *)
Definition unique (arr : list string) : list string :=
  fold_left add arr [].

End Js.

(* ================================================================= *)
(** ** deno.ts: splitting lock keys *)

(** [denoStoreId]: the first ['/'] becomes ['+']. *)
Definition denoStoreId (packageAtVersion : string) : string :=
  Js.replace packageAtVersion "/" "+".

(** [splitPackageAtVersion]: the name and the version of
    ["name@version"], the version [None] when there is no separating
    ['@']. *)
Definition splitPackageAtVersion (packageAtVersion : string)
  : result (string * option string) :=
  let colonOffset := Js.indexOf packageAtVersion ":" 0 in
  let initialOffset :=
    if String.eqb (Js.charAt packageAtVersion (colonOffset + 1)) "@"
    then colonOffset + 2 else colonOffset + 1 in
  let cutPoint := Js.indexOf packageAtVersion "@" initialOffset in
  if cutPoint =? -1 then Ok (packageAtVersion, None)
  else
    let packageName := Js.slice packageAtVersion 0 (Some cutPoint) in
    let version := Js.slice packageAtVersion (cutPoint + 1) None in
    if Js.falsy version
    then Throw (Error ("Invalid package@version format: '" ++ packageAtVersion ++ "'"))
    else Ok (packageName, Some version).

(** The loop of [splitMultiPackageAtVersion]; [fuel] is the number of
    iterations left ([maxIters - i]). *)
Fixpoint splitMultiLoop (fuel : nat) (packageAtVersion : string)
    (produced : list string) : result (list string) :=
  match fuel with
  | O => Throw (Error ("Exceeded maxIters while trying to split multi-package version string: "
                         ++ packageAtVersion))
  | S fuel' =>
      '(packageName, versionTail) <- splitPackageAtVersion packageAtVersion ;;
      match versionTail with
      | None => Ok (Js.push produced packageAtVersion)
      | Some tail =>
          if negb (Js.includes tail "@") then Ok (Js.push produced packageAtVersion)
          else if Js.indexOf tail "_" 0 =? -1
          then Throw (Error ("Invalid multi-package version string: " ++ packageAtVersion
                               ++ ". Expected an underscore to separate packages in version suffix '"
                               ++ tail ++ "'"))
          else
            match Js.split tail "_" 2 with
            | version :: rest :: _ =>
                splitMultiLoop fuel' rest (Js.push produced (packageName ++ "@" ++ version))
            | _ => Throw TypeError
            end
      end
  end.

(** [splitMultiPackageAtVersion]: [maxIters] is the length of the
    argument. *)
Definition splitMultiPackageAtVersion (packageAtVersion : string)
  : result (list string) :=
  splitMultiLoop (String.length packageAtVersion) packageAtVersion [].

(* ================================================================= *)
(** ** deno.ts: the lock document *)

(** [DenoWorkspace]: [{ packageJson: { dependencies?: string[] } }].  A
    member without [packageJson] spreads to nothing and so has no
    [dependencies] either. *)
Record DenoWorkspace : Type := {
  ws_dependencies : option (list string)
}.

(** [DenoWorkspaceWithMeta]. *)
Record DenoWorkspaceWithMeta : Type := {
  name : string;
  dependencies : option (list string);
  workspaceDependencies : option (list string)
}.

(** [DenoNpmEntry]. *)
Record DenoNpmEntry : Type := {
  integrity : string;
  entry_dependencies : option (list string);
  bin : option bool
}.

(** The [workspace] field of a lock document, by the two tests of
    [iterDenoWorkspaceMembers]. *)
Inductive DenoLockWorkspace : Type :=
| Members (members : list (string * DenoWorkspace))  (* ['members' in workspace] *)
| Root (workspace : DenoWorkspace)                   (* ['packageJson' in workspace] *)
| NoWorkspace.                                       (* neither *)

(** [DenoLock]: the registry sections are the remaining top-level keys
    (["npm"], ["jsr"], ...). *)
Record DenoLock : Type := {
  version : string;
  specifiers : list (string * string);
  workspace : DenoLockWorkspace;
  registries : list (string * list (string * DenoNpmEntry))
}.

(** A [package.json] read from disk: [{ name, dependencies? }]. *)
Record PackageJson : Type := {
  pj_name : option string;
  pj_dependencies : option (list (string * string))
}.

(** What [fs.existsSync], [fs.readFileSync] and [JSON.parse] give for a
    path. *)
Inductive FileRead : Type :=
| Missing
| Malformed
| Parsed (packageJson : PackageJson).

(** An element of [collectedDependencyPaths]: a string, or the promise
    that [denoPath] returns for a store path. *)
Inductive Collected : Type :=
| Plain (path : string)
| Promise (storePath : string).

Definition iterDenoWorkspaceMembers (denoLock : DenoLock)
  : list (string * DenoWorkspace) :=
  match workspace denoLock with
  | Members members => members
  | Root w => [(".", w)]
  | NoWorkspace => []
  end.

Definition KNOWN_REGISTRIES : list string := ["npm"; "jsr"].

Definition MAX_ITERS : nat := 10000.

(** [for (x of xs) body], for a body that may throw. *)
Fixpoint forEach {A S : Type} (body : S -> A -> result S) (xs : list A) (s : S)
  : result S :=
  match xs with
  | [] => Ok s
  | x :: xs' => s' <- body s x ;; forEach body xs' s'
  end.

(** [xs.map(f)], for an [f] that may throw. *)
Fixpoint mapM {A B : Type} (f : A -> result B) (xs : list A) : result (list B) :=
  match xs with
  | [] => Ok []
  | x :: xs' => y <- f x ;; ys <- mapM f xs' ;; Ok (y :: ys)
  end.

(** [xs.map(f).filter(nonnull)], and the loop that pushes [f(x)] when it
    is not [null]. *)
Fixpoint filterMap {A B : Type} (f : A -> option B) (xs : list A) : list B :=
  match xs with
  | [] => []
  | x :: xs' =>
      match f x with
      | Some y => y :: filterMap f xs'
      | None => filterMap f xs'
      end
  end.

(** [xs?.forEach] and [for (x of xs)] on an array that may be absent. *)
Definition orEmpty {A : Type} (xs : option (list A)) : list A :=
  match xs with
  | Some l => l
  | None => []
  end.

Section Deno.

(** [path.join], [fs.realpath] ([None] when the promise rejects) and the
    reading of a [package.json]. *)
Variable path_join : list string -> string.
Variable realpath : string -> option string.
Variable readPackageJson : string -> FileRead.

(** [path.dirname], the [exists] of line 6 and the reading and parsing
    of the lock file. *)
Variable dirname : string -> string.
Variable exists_ : string -> bool.
Variable readDenoLock : string -> result DenoLock.

(** [findDenoLock]: the loop over the ancestors of [cwd]; [fuel] bounds
    the number of iterations, and the result is [None] when the bound is
    hit, [Some None] for [null]. *)
Fixpoint findDenoLock (fuel : nat) (dir : string) : option (option string) :=
  match fuel with
  | O => None
  | S fuel' =>
      if String.eqb dir (dirname dir) then Some None
      else
        let lockFile := path_join [dir; "deno.lock"] in
        if exists_ lockFile then Some (Some lockFile)
        else findDenoLock fuel' (dirname dir)
  end.

(** [detectDeno]. *)
Definition detectDeno (fuel : nat) (cwd : string) : option bool :=
  match findDenoLock fuel cwd with
  | Some (Some _) => Some true
  | Some None => Some false
  | None => None
  end.

(** The [storePath] of [denoPath]. *)
Definition storePath (denoLockPath packageAtVersion : string) : string :=
  path_join [denoLockPath; ".."; "node_modules"; ".deno";
             denoStoreId packageAtVersion; "node_modules"].

(** [denoPath]: the promise of the real path of the store path. *)
Definition denoPath (denoLockPath packageAtVersion : string) : Collected :=
  Promise (storePath denoLockPath packageAtVersion).

(** [Promise.all(collectedDependencyPaths)]. *)
Definition promiseAll (collected : list Collected) : result (list string) :=
  mapM (fun c =>
          match c with
          | Plain p => Ok p
          | Promise storePath =>
              match realpath storePath with
              | Some real => Ok real
              | None => Throw (Rejected storePath)
              end
          end) collected.

(** The names in [packageJson.dependencies] whose version starts with
    ["workspace:"]; [undefined] when there is none. *)
Definition collectWorkspaceDependencies (deps : list (string * string))
  : option (list string) :=
  fold_left (fun acc '(depName, depVersion) =>
               if Js.startsWith depVersion "workspace:"
               then Some (Js.push (orEmpty acc) depName)
               else acc) deps None.

(** The callback of [iterDenoWorkspaceMembers(denoLock).map] (lines
    150-178). *)
Definition withLocalDeps (denoLockPath : string) (member : string * DenoWorkspace)
  : result (string * DenoWorkspaceWithMeta) :=
  let '(localPath, w) := member in
  let packageJsonPath := path_join [denoLockPath; ".."; localPath; "package.json"] in
  match readPackageJson packageJsonPath with
  | Missing =>
      Throw (Error ("Could not find package.json in workspace " ++ localPath ++ " "))
  | Malformed => Throw SyntaxError
  | Parsed packageJson =>
      match pj_name packageJson with
      | Some (String c n) =>
          Ok (localPath,
              {| name := String c n;
                 dependencies := ws_dependencies w;
                 workspaceDependencies :=
                   match pj_dependencies packageJson with
                   | Some deps => collectWorkspaceDependencies deps
                   | None => None
                   end |})
      | _ =>
          Throw (Error ("Could not find name in package.json in workspace "
                          ++ localPath ++ " "))
      end
  end.

(** The inner loop of lines 190-200 over the keys of one registry. *)
Definition seedRegistry (packagedDependencies : list string) (registry : string)
    (registryDependencies : list string) (specifier : string)
  : result (list string) :=
  let lastAtIndex := Js.lastIndexOf specifier "@" in
  if lastAtIndex =? -1
  then Throw (Error ("Invalid specifier in deno.lock: '" ++ specifier ++ "'"))
  else
    let packageName := Js.slice specifier 0 (Some lastAtIndex) in
    if Js.mem packageName packagedDependencies
    then Ok (Js.add registryDependencies (registry ++ ":" ++ specifier))
    else Ok registryDependencies.

(** Lines 186-201. *)
Definition seedRegistries (denoLock : DenoLock) (packagedDependencies : list string)
  : result (list string) :=
  forEach (fun registryDependencies registry =>
             match Js.lookup registry (registries denoLock) with
             | None => Ok registryDependencies
             | Some section =>
                 forEach (seedRegistry packagedDependencies registry)
                         (Js.keys section) registryDependencies
             end) KNOWN_REGISTRIES [].

(** The state of the two traversals. *)
Definition WorkspaceFrontier : Type :=
  list (string * option DenoWorkspaceWithMeta).

(** One iteration of the workspace loop (lines 210-222). *)
Definition workspaceStep (denoLockPath : string) (denoLock : DenoLock)
    (workspacesWithLocalDeps : list (string * DenoWorkspaceWithMeta))
    (popped : string * option DenoWorkspaceWithMeta)
    (st : WorkspaceFrontier * list string * list Collected)
  : result (WorkspaceFrontier * list string * list Collected) :=
  let '(workspacesFrontier, registryDependencies, collectedDependencyPaths) := st in
  let '(localPath, w) := popped in
  let collectedDependencyPaths :=
    Js.push collectedDependencyPaths (Plain (path_join [denoLockPath; ".."; localPath])) in
  match w with
  | None => Throw TypeError
  | Some w =>
      let workspacesFrontier :=
        fold_left (fun frontier dependency =>
                     Js.push frontier
                       (dependency, Js.lookup dependency workspacesWithLocalDeps))
                  (orEmpty (workspaceDependencies w)) workspacesFrontier in
      registryDependencies <-
        forEach (fun registryDependencies dependency =>
                   let versionString := Js.lookup dependency (specifiers denoLock) in
                   '(packageNameWithRegistry, _) <- splitPackageAtVersion dependency ;;
                   Ok (Js.add registryDependencies
                         (packageNameWithRegistry ++ "@" ++ Js.show versionString)))
                (orEmpty (dependencies w)) registryDependencies ;;
      Ok (workspacesFrontier, registryDependencies, collectedDependencyPaths)
  end.

(** The workspace loop (lines 209-223); [fuel] is [MAX_ITERS - i].  The
    loop ends when the frontier is empty or the fuel is spent, and the
    code after it reads the three variables whatever ended it. *)
Fixpoint drainWorkspaces (fuel : nat) (denoLockPath : string) (denoLock : DenoLock)
    (workspacesWithLocalDeps : list (string * DenoWorkspaceWithMeta))
    (st : WorkspaceFrontier * list string * list Collected)
  : result (WorkspaceFrontier * list string * list Collected) :=
  match fuel with
  | O => Ok st
  | S fuel' =>
      let '(workspacesFrontier, registryDependencies, collected) := st in
      match Js.pop workspacesFrontier with
      | None => Ok st
      | Some (popped, workspacesFrontier) =>
          st' <- workspaceStep denoLockPath denoLock workspacesWithLocalDeps popped
                   (workspacesFrontier, registryDependencies, collected) ;;
          drainWorkspaces fuel' denoLockPath denoLock workspacesWithLocalDeps st'
      end
  end.

Definition RegistryState : Type := list string * list string * list Collected.

(** Lines 238-249: the key that a token stands for.  A token with a
    version stands for itself; one without is replaced by the first key
    of its registry that starts with ["name@"], and stays as it is when
    there is none. *)
Definition inferVersion (denoLock : DenoLock) (registryId packageAtVersion : string)
  : result string :=
  '(packageName, version) <- splitPackageAtVersion packageAtVersion ;;
  match version with
  | Some _ => Ok packageAtVersion
  | None =>
      match Js.lookup registryId (registries denoLock) with
      | None => Throw TypeError
      | Some section =>
          match find (fun key => Js.startsWith key (packageName ++ "@")) (Js.keys section) with
          | Some key => Ok key
          | None => Ok packageAtVersion
          end
      end
  end.

(** Lines 273-285: the frontier token of a dependency reference of an
    entry of [registryId]. *)
Definition dependencyToken (registryId dependency : string) : string :=
  let colonPoint := Js.indexOf dependency ":" 0 in
  let atPoint := Js.indexOf dependency "@" 1 in
  let dependency :=
    if negb (atPoint =? -1) && negb (colonPoint =? -1) && (atPoint <? colonPoint)
    then Js.slice dependency (atPoint + 1) None
    else dependency in
  if Js.includes dependency ":" then dependency
  else registryId ++ ":" ++ dependency.

(** Lines 272-291: queue the dependencies of an entry. *)
Definition queueDependencies (registryId : string) (deps : list string)
    (frontier registryDependencies : list string) : list string * list string :=
  fold_left (fun '(frontier, registryDependencies) dependency =>
               let dependencyString := dependencyToken registryId dependency in
               if negb (Js.mem dependencyString registryDependencies)
               then (Js.push frontier dependencyString,
                     Js.add registryDependencies dependencyString)
               else (frontier, registryDependencies))
            deps (frontier, registryDependencies).

(** Lines 251-291: record the store paths of the key [packageAtVersion]
    of [registryId] and queue the dependencies of its entry. *)
Definition visitEntry (denoLockPath : string) (denoLock : DenoLock)
    (registryId packageAtVersion : string) (st : RegistryState)
  : result RegistryState :=
  let '(frontier, registryDependencies, collectedDependencyPaths) := st in
  pieces <- splitMultiPackageAtVersion packageAtVersion ;;
  let collectedDependencyPaths :=
    fold_left (fun collected piece => Js.push collected (denoPath denoLockPath piece))
              pieces collectedDependencyPaths in
  match Js.lookup registryId (registries denoLock) with
  | None => Throw (Error ("Could not find registry " ++ registryId ++ " in deno.lock"))
  | Some section =>
      match Js.read packageAtVersion section with
      | Js.Undefined =>
          Throw (Error ("Could not find '" ++ packageAtVersion
                          ++ "' in deno.lock registry " ++ registryId ++ " "))
      | Js.Inherited =>
          (* a member of [Object.prototype]: truthy, and without
             [dependencies] *)
          Ok (frontier, registryDependencies, collectedDependencyPaths)
      | Js.Own packageMeta =>
          match entry_dependencies packageMeta with
          | None => Ok (frontier, registryDependencies, collectedDependencyPaths)
          | Some deps =>
              let '(frontier, registryDependencies) :=
                queueDependencies registryId deps frontier registryDependencies in
              Ok (frontier, registryDependencies, collectedDependencyPaths)
          end
      end
  end.

(** One iteration of the registry loop (lines 228-291) on the popped
    token. *)
Definition registryStep (denoLockPath : string) (denoLock : DenoLock)
    (versionString : string) (st : RegistryState) : result RegistryState :=
  let parts := Js.split versionString ":" 2 in
  match nth_error parts 0, nth_error parts 1 with
  | Some (String c r), Some (String d p) =>
      let registryId := String c r in
      packageAtVersion <- inferVersion denoLock registryId (String d p) ;;
      visitEntry denoLockPath denoLock registryId packageAtVersion st
  | _, _ => Throw (Error ("Invalid version string in deno.lock: " ++ versionString))
  end.

(** The registry loop (lines 227-292); [fuel] is [MAX_ITERS - i]. *)
Fixpoint drainRegistry (fuel : nat) (denoLockPath : string) (denoLock : DenoLock)
    (st : RegistryState) : result RegistryState :=
  match fuel with
  | O => Ok st
  | S fuel' =>
      let '(frontier, registryDependencies, collected) := st in
      match Js.pop frontier with
      | None => Ok st
      | Some (versionString, frontier) =>
          st' <- registryStep denoLockPath denoLock versionString
                   (frontier, registryDependencies, collected) ;;
          drainRegistry fuel' denoLockPath denoLock st'
      end
  end.

(** [selectDenoDependencies]. *)
Definition selectDenoDependencies (denoLockPath : string) (denoLock : DenoLock)
    (packagedDependencies : list string) : result (list string) :=
  workspacesWithLocalDeps <-
    mapM (withLocalDeps denoLockPath) (iterDenoWorkspaceMembers denoLock) ;;
  let matchedLocalWorkspaces :=
    filter (fun '(_, w) => Js.mem (name w) packagedDependencies)
           workspacesWithLocalDeps in
  registryDependencies <- seedRegistries denoLock packagedDependencies ;;
  let workspacesFrontier : WorkspaceFrontier :=
    map (fun '(localPath, w) => (localPath, Some w)) matchedLocalWorkspaces in
  '(_, registryDependencies, collectedDependencyPaths) <-
    drainWorkspaces MAX_ITERS denoLockPath denoLock workspacesWithLocalDeps
      (workspacesFrontier, registryDependencies, []) ;;
  let frontier := registryDependencies in
  '(_, _, collectedDependencyPaths) <-
    drainRegistry MAX_ITERS denoLockPath denoLock
      (frontier, registryDependencies, collectedDependencyPaths) ;;
  promiseAll collectedDependencyPaths.

(** Lines 317-340 of [getDenoDependencies]: what the call returns once
    the lock document is located and parsed. *)
Definition getDenoDependenciesFrom (denoLockPath : string) (denoLock : DenoLock)
    (cwd : string) (packagedDependencies : option (list string))
  : result (list string) :=
  absPathResults <-
    match packagedDependencies with
    | None =>
        match Js.lookup "npm" (registries denoLock) with
        | None => Throw TypeError
        | Some npm =>
            pieces <- mapM splitMultiPackageAtVersion (Js.keys npm) ;;
            promiseAll (map (denoPath denoLockPath) (concat pieces))
        end
    | Some packagedDependencies =>
        selectDenoDependencies denoLockPath denoLock packagedDependencies
    end ;;
  let absPathResults :=
    if negb (Js.mem cwd absPathResults) then Js.push absPathResults cwd
    else absPathResults in
  Ok (Js.unique absPathResults).

(** [getDenoDependencies]; [fuel] bounds the walk of [findDenoLock]. *)
Definition getDenoDependencies (fuel : nat) (cwd : string)
    (packagedDependencies : option (list string))
  : option (result (list string)) :=
  match findDenoLock fuel cwd with
  | None => None
  | Some None =>
      Some (Throw (Error "Could not find deno.lock file in the current directory or its parents"))
  | Some (Some denoLockPath) =>
      Some (denoLock <- readDenoLock denoLockPath ;;
            getDenoDependenciesFrom denoLockPath denoLock cwd packagedDependencies)
  end.

End Deno.

(* ================================================================= *)
(** ** yarn.ts: the tree resolver *)

(** [YarnTreeNode]; an absent [children] is the empty list
    ([tree.children || []]). *)
Inductive YarnTreeNode : Type :=
| TreeNode (name : string) (children : list YarnTreeNode).

(** [YarnDependency]. *)
Inductive YarnDependency : Type :=
| Dependency (name path : string) (children : list YarnDependency).

Definition dep_name (dep : YarnDependency) : string :=
  match dep with Dependency name _ _ => name end.

Definition dep_path (dep : YarnDependency) : string :=
  match dep with Dependency _ path _ => path end.

Definition dep_children (dep : YarnDependency) : list YarnDependency :=
  match dep with Dependency _ _ children => children end.

(** [/@[\^~]/.test(s)]: somewhere in [s] an ['@'] is followed by ['^'] or
    ['~']. *)
Fixpoint testRange (s : string) : bool :=
  match s with
  | EmptyString => false
  | String c s' =>
      match s' with
      | String d _ =>
          (Ascii.eqb c "@" && (Ascii.eqb d "^" || Ascii.eqb d "~")) || testRange s'
      | EmptyString => false
      end
  end.

(** [.] of a regular expression matches every character but a line
    terminator. *)
Definition lineTerminator (c : ascii) : bool :=
  Ascii.eqb c "010" || Ascii.eqb c "013".

Fixpoint anyLineTerminator (s : string) : bool :=
  match s with
  | EmptyString => false
  | String c s' => lineTerminator c || anyLineTerminator s'
  end.

(** [s.replace(/^([^@+])@.*$/, '$1')]: the pattern matches a string made
    of one character other than ['@'] and ['+'], an ['@'], and a rest
    without line terminator; the match is replaced by that one character.
    A string that does not match is returned as it is. *)
Definition replaceVersion (s : string) : string :=
  match s with
  | String c (String "@" rest) =>
      if negb (Ascii.eqb c "@") && negb (Ascii.eqb c "+")
         && negb (anyLineTerminator rest)
      then String c EmptyString
      else s
  | _ => s
  end.

Section Yarn.

(** [path.join], [parseSemver(label).name] ([None] when [parseSemver]
    throws), and the trees that [yarn list --prod --json] reports for a
    directory. *)
Variable path_join : list string -> string.
Variable parseSemver : string -> option string.
Variable yarnList : string -> result (list YarnTreeNode).

(** [asYarnDependency]; [None] is [null]. *)
Fixpoint asYarnDependency (prefix : string) (tree : YarnTreeNode) (prune : bool)
  : option YarnDependency :=
  match tree with
  | TreeNode label kids =>
      if prune && testRange label then None
      else
        let name :=
          match parseSemver label with
          | Some name => name
          | None => replaceVersion label
          end in
        let dependencyPath := path_join [prefix; name] in
        let children :=
          filterMap (fun child =>
                       asYarnDependency (path_join [prefix; name; "node_modules"])
                         child prune) kids in
        Some (Dependency name dependencyPath children)
  end.

(** The constructor of the index of [selectYarnDependencies]. *)
Definition buildIndex (deps : list YarnDependency)
  : result (list (string * YarnDependency)) :=
  forEach (fun data dep =>
             match Js.lookup (dep_name dep) data with
             | Some _ => Throw (Error ("Dependency seen more than once: " ++ dep_name dep))
             | None => Ok (Js.push data (dep_name dep, dep))
             end) deps [].

(** [index.find]. *)
Definition find_dependency (data : list (string * YarnDependency)) (name : string)
  : result YarnDependency :=
  match Js.lookup name data with
  | Some dep => Ok dep
  | None => Throw (Error ("Could not find dependency: " ++ name))
  end.

(** [reached.values.indexOf(dep) < 0] is a test of object identity.
    Every value of [reached] was returned by [index.find], and the index
    holds one object for each name, so two of them are the same object
    exactly when their names are equal. *)
Definition isReached (reached : list YarnDependency) (dep : YarnDependency) : bool :=
  existsb (fun r => String.eqb (dep_name r) (dep_name dep)) reached.

(** [names.forEach(visit)], for the [visit] given as [rec]: the names
    are visited in order until one of the visits throws. *)
Fixpoint visitEach
    (rec : string -> list YarnDependency -> option (result (list YarnDependency)))
    (names : list string) (reached : list YarnDependency)
  : option (result (list YarnDependency)) :=
  match names with
  | [] => Some (Ok reached)
  | name :: names' =>
      match rec name reached with
      | Some (Ok reached') => visitEach rec names' reached'
      | other => other
      end
  end.

(** [visit], with [fuel] bounding the depth of the recursion; [None]
    when the bound is hit. *)
Fixpoint visit (fuel : nat) (data : list (string * YarnDependency)) (name : string)
    (reached : list YarnDependency) : option (result (list YarnDependency)) :=
  match fuel with
  | O => None
  | S fuel' =>
      match find_dependency data name with
      | Throw e => Some (Throw e)
      | Ok dep =>
          if isReached reached dep then Some (Ok reached)
          else visitEach (visit fuel' data) (map dep_name (dep_children dep))
                         (Js.push reached dep)
      end
  end.

(** [selectYarnDependencies].  A chain of nested [visit] calls adds a
    new top-level dependency at each level but the last, so its depth is
    at most the number of dependencies plus one. *)
Definition selectYarnDependencies (deps : list YarnDependency)
    (packagedDependencies : list string) : option (result (list YarnDependency)) :=
  match buildIndex deps with
  | Throw e => Some (Throw e)
  | Ok data =>
      visitEach (visit (S (List.length deps)) data) packagedDependencies []
  end.

(** [trees.map(tree => asYarnDependency(...)).filter(nonnull)]. *)
Definition convertTrees (cwd : string) (trees : list YarnTreeNode) (prune : bool)
  : list YarnDependency :=
  filterMap (fun tree => asYarnDependency (path_join [cwd; "node_modules"]) tree prune)
            trees.

(** [getYarnProductionDependencies], from the parsed trees on. *)
Definition getYarnProductionDependencies (cwd : string)
    (packagedDependencies : option (list string))
  : option (result (list YarnDependency)) :=
  match yarnList cwd with
  | Throw e => Some (Throw e)
  | Ok trees =>
      let usingPackagedDependencies :=
        match packagedDependencies with Some _ => true | None => false end in
      let result := convertTrees cwd trees (negb usingPackagedDependencies) in
      match packagedDependencies with
      | Some packagedDependencies => selectYarnDependencies result packagedDependencies
      | None => Some (Ok result)
      end
  end.

(** [flatten] of [getYarnDependencies], on the set [result]. *)
Fixpoint flatten (dep : YarnDependency) (result : list string) : list string :=
  match dep with
  | Dependency _ path children =>
      fold_left (fun result child => flatten child result) children
                (Js.add result path)
  end.

(** [getYarnDependencies]. *)
Definition getYarnDependencies (cwd : string)
    (packagedDependencies : option (list string))
  : option (result (list string)) :=
  match getYarnProductionDependencies cwd packagedDependencies with
  | Some (Ok deps) =>
      Some (Ok (fold_left (fun result dep => flatten dep result) deps [cwd]))
  | Some (Throw e) => Some (Throw e)
  | None => None
  end.

End Yarn.

(** The nodes of a dependency tree: the node and all its descendants. *)
Fixpoint nodes (dep : YarnDependency) : list YarnDependency :=
  match dep with
  | Dependency _ _ children => dep :: flat_map nodes children
  end.



(* ================================================================= *)
(** ** A file system for the examples *)

Module Sample.

(** A POSIX [path.join]: the non-empty arguments are joined by ['/'] and
    the result is normalised (empty and ["."] segments dropped, [".."]
    cancelling the segment before it). *)
Fixpoint normalise (absolute : bool) (segments stack : list string) : list string :=
  match segments with
  | [] => rev stack
  | seg :: segments' =>
      if String.eqb seg "" || String.eqb seg "." then normalise absolute segments' stack
      else if String.eqb seg ".."
      then match stack with
           | top :: stack' =>
               if String.eqb top ".." then normalise absolute segments' (seg :: stack)
               else normalise absolute segments' stack'
           | [] =>
               if absolute then normalise absolute segments' []
               else normalise absolute segments' [seg]
           end
      else normalise absolute segments' (seg :: stack)
  end.

Definition join (parts : list string) : string :=
  let joined := String.concat "/" (filter (fun p => negb (Js.falsy p)) parts) in
  let absolute := Js.startsWith joined "/" in
  let body := String.concat "/" (normalise absolute (Js.split_all joined "/") []) in
  if absolute then "/" ++ body
  else if Js.falsy body then "." else body.

(** A POSIX [path.dirname] for paths without trailing ['/']. *)
Definition dirname (p : string) : string :=
  let cut := Js.lastIndexOf p "/" in
  if cut =? -1 then "."
  else if cut =? 0 then "/"
  else Js.slice p 0 (Some cut).

(** Every path exists and none is a symbolic link. *)
Definition realpath (p : string) : option string := Some p.

(** A disk on which the files of [files] exist. *)
Definition exists_ (files : list string) (p : string) : bool := Js.mem p files.

(** A disk holding the [package.json] files of [files]. *)
Definition disk (files : list (string * PackageJson)) (p : string) : FileRead :=
  match Js.lookup p files with
  | Some packageJson => Parsed packageJson
  | None => Missing
  end.

(** The characters of the range syntax of semantic versions. *)
Definition rangeChar (c : ascii) : bool :=
  existsb (Ascii.eqb c)
    (list_ascii_of_string "0123456789.^~<>=|-*xX ").

Fixpoint allRangeChars (s : string) : bool :=
  match s with
  | EmptyString => true
  | String c s' => rangeChar c && allRangeChars s'
  end.

(** A stand-in for [parseSemver] on the labels of the examples: the name
    is what precedes the last ['@'], and the label is rejected when it has
    no name, no version, or a version that is not written in the range
    syntax (a tag such as ["latest"]). *)
Definition parseSemver (label : string) : option string :=
  let cut := Js.lastIndexOf label "@" in
  if cut <=? 0 then None
  else
    let version := Js.slice label (cut + 1) None in
    if Js.falsy version || negb (allRangeChars version) then None
    else Some (Js.slice label 0 (Some cut)).

Definition entry (deps : option (list string)) : DenoNpmEntry :=
  {| integrity := "sha"; entry_dependencies := deps; bin := None |}.

End Sample.


(* ================================================================= *)
(** ** Example documents *)

Module Examples.

Definition member : DenoWorkspace := {| ws_dependencies := None |}.

(** A document with one entry in each of the two known registries. *)
Definition twoRegistries : DenoLock :=
  {| version := "4";
     specifiers := [("npm:lodash@^4.0.0", "4.17.21")];
     workspace := NoWorkspace;
     registries := [("npm", [("lodash@4.17.21", Sample.entry None)]);
                    ("jsr", [("@std/path@1.0.0", Sample.entry None)])] |}.

(** Two workspace members that depend on each other. *)
Definition cyclic : DenoLock :=
  {| version := "4"; specifiers := [];
     workspace := Members [("a", member); ("b", member)];
     registries := [] |}.

Definition cyclicDisk : string -> FileRead :=
  Sample.disk
    [("/proj/a/package.json",
       {| pj_name := Some "a"; pj_dependencies := Some [("b", "workspace:*")] |});
     ("/proj/b/package.json",
       {| pj_name := Some "b"; pj_dependencies := Some [("a", "workspace:*")] |})].

(** The catalog built for [cyclic] on [cyclicDisk]. *)
Definition cyclicA : DenoWorkspaceWithMeta :=
  {| name := "a"; dependencies := None; workspaceDependencies := Some ["b"] |}.

Definition cyclicB : DenoWorkspaceWithMeta :=
  {| name := "b"; dependencies := None; workspaceDependencies := Some ["a"] |}.

Definition cyclicCatalog : list (string * DenoWorkspaceWithMeta) :=
  [("a", cyclicA); ("b", cyclicB)].

(** A monorepo in the usual layout: the members live under [packages/]
    and are named after their directory. *)
Definition monorepo : DenoLock :=
  {| version := "4"; specifiers := [];
     workspace := Members [("packages/app", member); ("packages/lib", member)];
     registries := [] |}.

Definition monorepoDisk : string -> FileRead :=
  Sample.disk
    [("/proj/packages/app/package.json",
       {| pj_name := Some "app"; pj_dependencies := Some [("lib", "workspace:*")] |});
     ("/proj/packages/lib/package.json",
       {| pj_name := Some "lib"; pj_dependencies := None |})].

(** A workspace in which the member named ["lib"] lives in
    [packages/lib] and another member lives in the directory [lib]. *)
Definition shadowed : DenoLock :=
  {| version := "4"; specifiers := [];
     workspace := Members [("app", member); ("lib", member); ("packages/lib", member)];
     registries := [] |}.

Definition shadowedDisk : string -> FileRead :=
  Sample.disk
    [("/proj/app/package.json",
       {| pj_name := Some "app"; pj_dependencies := Some [("lib", "workspace:*")] |});
     ("/proj/lib/package.json",
       {| pj_name := Some "other"; pj_dependencies := None |});
     ("/proj/packages/lib/package.json",
       {| pj_name := Some "lib"; pj_dependencies := None |})].

(** A forest as [yarn list] prints it: resolved versions at the top,
    ranges on the references below. *)
Definition forest : list YarnTreeNode :=
  [TreeNode "a@1.0.0" [TreeNode "b@^2.0.0" []];
   TreeNode "b@2.0.0" [TreeNode "c@~3.0.0" []];
   TreeNode "c@3.0.0" []].

(** A forest in which a child names a package that is not at the top. *)
Definition dangling : list YarnTreeNode :=
  [TreeNode "a@1.0.0" [TreeNode "zz@^1.0.0" []]].

(** A registry with two versions of one package, the later one first. *)
Definition twoVersionsNpm : list (string * DenoNpmEntry) :=
  [("bar@1.0.0", Sample.entry (Some ["foo"]));
   ("foo@2.0.0", Sample.entry None);
   ("foo@1.0.0", Sample.entry None)].

Definition twoVersions : DenoLock :=
  {| version := "4"; specifiers := [];
     workspace := NoWorkspace;
     registries := [("npm", twoVersionsNpm)] |}.

(** An entry that refers to a package named as a member of
    [Object.prototype], for which the registry has no key. *)
Definition inheriting : DenoLock :=
  {| version := "4"; specifiers := [];
     workspace := NoWorkspace;
     registries := [("npm", [("a@1.0.0", Sample.entry (Some ["constructor"]))])] |}.

Definition danglingDeps : list YarnDependency :=
  convertTrees Sample.join Sample.parseSemver "/proj" dangling false.

Definition danglingIndex : list (string * YarnDependency) :=
  map (fun dep => (dep_name dep, dep)) danglingDeps.

End Examples.

(* ================================================================= *)
(** ** Induction on trees and the vocabulary of the walk *)

Section Trees.

Variable P : YarnDependency -> Prop.
Hypothesis step : forall name path children,
    Forall P children -> P (Dependency name path children).

Fixpoint YarnDependency_nested_ind (dep : YarnDependency) : P dep :=
  match dep with
  | Dependency name path children =>
      step name path children
        ((fix all (l : list YarnDependency) : Forall P l :=
            match l with
            | [] => Forall_nil P
            | d :: l' => Forall_cons d (YarnDependency_nested_ind d) (all l')
            end) children)
  end.

End Trees.

Section RawTrees.

Variable P : YarnTreeNode -> Prop.
Hypothesis step : forall label kids, Forall P kids -> P (TreeNode label kids).


End RawTrees.

Definition names (deps : list YarnDependency) : list string := map dep_name deps.

(** [Reach data n m]: the walk that starts at the name [n] comes to the
    name [m], going from a name to the node that the index holds for it and
    from that node to the names of its children. *)
Inductive Reach (data : list (string * YarnDependency)) : string -> string -> Prop :=
| Reach_here (n : string) : Reach data n n
| Reach_child (n m : string) (dep child : YarnDependency) :
    Js.lookup n data = Some dep ->
    In child (dep_children dep) ->
    Reach data (dep_name child) m ->
    Reach data n m.

(** The nodes of [reached] are the ones the index holds for their names. *)
Definition FromIndex (data : list (string * YarnDependency))
    (reached : list YarnDependency) : Prop :=
  forall dep, In dep reached -> Js.lookup (dep_name dep) data = Some dep.

(** What a walk from the names [from] gives when it starts with [reached]:
    it does not run out of fuel; when it throws, a name reached from
    [from] is missing in the index; when it returns, it has added nodes to
    [reached], the names of [from] are reached, every added node has the
    names of its children reached and is itself reached from [from]. *)
Definition Visited (data : list (string * YarnDependency)) (from : list string)
    (reached : list YarnDependency)
    (out : option (result (list YarnDependency))) : Prop :=
  match out with
  | None => False
  | Some (Throw e) =>
      exists n m, In n from /\ Reach data n m /\ Js.lookup m data = None
                  /\ e = Error ("Could not find dependency: " ++ m)
  | Some (Ok reached') =>
      exists added,
        reached' = (reached ++ added)%list
        /\ FromIndex data reached'
        /\ NoDup (names reached')
        /\ (forall n, In n from -> In n (names reached'))
        /\ (forall dep child, In dep added -> In child (dep_children dep) ->
                              In (dep_name child) (names reached'))
        /\ (forall dep, In dep added -> exists n, In n from /\ Reach data n (dep_name dep))
  end.

(** The [k]-th ancestor of a directory: [path.dirname] applied [k]
    times. *)
Fixpoint ancestor (dirname : string -> string) (k : nat) (dir : string) : string :=
  match k with
  | O => dir
  | S k' => ancestor dirname k' (dirname dir)
  end.

(** The pieces of a split put together again, as [pieces.join(c)] does. *)
Fixpoint joinPieces (c : ascii) (pieces : list string) : string :=
  match pieces with
  | [] => ""
  | [piece] => piece
  | piece :: pieces' => piece ++ String c (joinPieces c pieces')
  end.

(** The keys of a lock document that do not hold a registry section: its
    three fields, and the members it inherits from [Object.prototype]. *)
Definition otherTopLevelKeys : list string :=
  (["version"; "specifiers"; "workspace"] ++ Js.prototypeMembers)%list.

(** A token is settled in a state of the registry traversal when it has
    been through an iteration that did not throw: it names a registry and
    a package, the store paths of the pieces of its key are collected, and
    the read of the key in the registry section finds an entry, whose
    dependencies have their tokens in the visited set, or finds a member of
    [Object.prototype]. *)
Definition Settled (path_join : list string -> string) (denoLockPath : string)
    (denoLock : DenoLock) (visited : list string) (collected : list Collected)
    (token : string) : Prop :=
  exists registryId packageAtVersion key pieces section,
    Js.split token ":" 2 = [registryId; packageAtVersion]
    /\ inferVersion denoLock registryId packageAtVersion = Ok key
    /\ splitMultiPackageAtVersion key = Ok pieces
    /\ (forall piece, In piece pieces ->
                      In (denoPath path_join denoLockPath piece) collected)
    /\ Js.lookup registryId (registries denoLock) = Some section
    /\ match Js.read key section with
       | Js.Own packageMeta =>
           forall dependency,
             In dependency (orEmpty (entry_dependencies packageMeta)) ->
             In (dependencyToken registryId dependency) visited
       | Js.Inherited => True
       | Js.Undefined => False
       end.

(** [Pushes catalog e e']: popping the frontier entry [e] pushes the entry
    [e']: [e'] pairs the name of a workspace dependency of [e] with what the
    catalog holds under that name. *)
Inductive Pushes (catalog : list (string * DenoWorkspaceWithMeta))
  : string * option DenoWorkspaceWithMeta -> string * option DenoWorkspaceWithMeta -> Prop :=
| Pushes_dependency (localPath dependency : string) (w : DenoWorkspaceWithMeta) :
    In dependency (orEmpty (workspaceDependencies w)) ->
    Pushes catalog (localPath, Some w) (dependency, Js.lookup dependency catalog).

(** The entries that come onto the frontier once [e] is on it. *)
Inductive Follows (catalog : list (string * DenoWorkspaceWithMeta))
  : string * option DenoWorkspaceWithMeta -> string * option DenoWorkspaceWithMeta -> Prop :=
| Follows_here (e : string * option DenoWorkspaceWithMeta) : Follows catalog e e
| Follows_push (e e' e'' : string * option DenoWorkspaceWithMeta) :
    Pushes catalog e e' -> Follows catalog e' e'' -> Follows catalog e e''.

(* ================================================================= *)
(** ** Arrays and sets *)

Section JsFacts.

Lemma mem_In (x : string) (arr : list string) :
  Js.mem x arr = true <-> In x arr.
Proof.
  induction arr as [|y arr IH]; simpl.
  - split; [discriminate | tauto].
  - rewrite orb_true_iff, IH, String.eqb_eq. tauto.
Qed.

Lemma mem_false (x : string) (arr : list string) :
  Js.mem x arr = false <-> ~ In x arr.
Proof.
  rewrite <- mem_In. destruct (Js.mem x arr); split; congruence.
Qed.

Lemma push_In {A : Type} (arr : list A) (x y : A) :
  In y (Js.push arr x) <-> In y arr \/ y = x.
Proof.
  unfold Js.push. rewrite in_app_iff. simpl. intuition.
Qed.

Lemma add_In (set : list string) (x y : string) :
  In y (Js.add set x) <-> In y set \/ y = x.
Proof.
  unfold Js.add. destruct (Js.mem x set) eqn:E.
  - apply mem_In in E. split; [tauto | intros [H | ->]; assumption].
  - apply push_In.
Qed.

Lemma add_NoDup (set : list string) (x : string) :
  NoDup set -> NoDup (Js.add set x).
Proof.
  intros H. unfold Js.add. destruct (Js.mem x set) eqn:E; [assumption|].
  apply mem_false in E. unfold Js.push.
  apply NoDup_app; [assumption | repeat constructor; simpl; tauto |].
  intros y Hy [<- | []]. exact (E Hy).
Qed.

Lemma fold_add_In (arr set : list string) (y : string) :
  In y (fold_left Js.add arr set) <-> In y set \/ In y arr.
Proof.
  revert set. induction arr as [|x arr IH]; intros set; simpl.
  - tauto.
  - rewrite IH, add_In. intuition.
Qed.

Lemma fold_add_NoDup (arr set : list string) :
  NoDup set -> NoDup (fold_left Js.add arr set).
Proof.
  revert set. induction arr as [|x arr IH]; intros set H; simpl.
  - assumption.
  - apply IH, add_NoDup, H.
Qed.

Lemma unique_In (arr : list string) (y : string) :
  In y (Js.unique arr) <-> In y arr.
Proof.
  unfold Js.unique. rewrite fold_add_In. simpl. tauto.
Qed.

Lemma unique_NoDup (arr : list string) : NoDup (Js.unique arr).
Proof.
  apply fold_add_NoDup. constructor.
Qed.

Lemma pop_push {A : Type} (arr : list A) (x : A) :
  Js.pop (Js.push arr x) = Some (x, arr).
Proof.
  unfold Js.push. induction arr as [|y arr IH]; simpl.
  - reflexivity.
  - rewrite IH. reflexivity.
Qed.

Lemma pop_None {A : Type} (arr : list A) :
  Js.pop arr = None <-> arr = [].
Proof.
  destruct arr as [|x arr]; simpl.
  - tauto.
  - split; [|discriminate].
    destruct (Js.pop arr) as [[y rest]|]; discriminate.
Qed.

Lemma pop_Some {A : Type} (arr rest : list A) (x : A) :
  Js.pop arr = Some (x, rest) <-> arr = Js.push rest x.
Proof.
  split.
  - revert rest. induction arr as [|y arr IH]; intros rest; simpl.
    + discriminate.
    + destruct (Js.pop arr) as [[z rest']|] eqn:E.
      * intros [= <- <-]. rewrite (IH rest' eq_refl). reflexivity.
      * intros [= <- <-]. apply pop_None in E. subst. reflexivity.
  - intros ->. apply pop_push.
Qed.

Lemma lookup_In {V : Type} (key : string) (obj : list (string * V)) (v : V) :
  Js.lookup key obj = Some v -> In (key, v) obj.
Proof.
  induction obj as [|[k w] obj IH]; simpl.
  - discriminate.
  - destruct (String.eqb k key) eqn:E.
    + apply String.eqb_eq in E. intros [= ->]. left. congruence.
    + intros H. right. exact (IH H).
Qed.

Lemma lookup_None {V : Type} (key : string) (obj : list (string * V)) :
  Js.lookup key obj = None <-> ~ In key (Js.keys obj).
Proof.
  induction obj as [|[k w] obj IH]; simpl.
  - tauto.
  - destruct (String.eqb k key) eqn:E.
    + apply String.eqb_eq in E. split; [discriminate | tauto].
    + apply String.eqb_neq in E. rewrite IH. tauto.
Qed.

End JsFacts.

(* ================================================================= *)
(** ** The result always holds the project root, once *)

Section Selection.

Variable path_join : list string -> string.

Lemma getDenoDependenciesFrom_selection realpath readPackageJson
    denoLockPath denoLock cwd packagedDependencies result :
  getDenoDependenciesFrom path_join realpath readPackageJson
    denoLockPath denoLock cwd packagedDependencies = Ok result ->
  NoDup result /\ In cwd result.
Proof.
  unfold getDenoDependenciesFrom.
  match goal with
  | |- bind ?r _ = _ -> _ => destruct r as [paths|e]
  end; simpl; [|discriminate].
  intros [= <-]. split.
  - apply unique_NoDup.
  - apply unique_In.
    destruct (Js.mem cwd paths) eqn:E; simpl.
    + apply mem_In, E.
    + apply push_In. right. reflexivity.
Qed.

End Selection.

Section Flatten.

Lemma nodes_self (dep : YarnDependency) : In dep (nodes dep).
Proof. destruct dep. simpl. left. reflexivity. Qed.

Lemma fold_flatten_In (children : list YarnDependency) :
  Forall (fun child => forall result p,
              In p (flatten child result)
              <-> In p result \/ In p (map dep_path (nodes child))) children ->
  forall result p,
    In p (fold_left (fun result child => flatten child result) children result)
    <-> In p result \/ In p (map dep_path (flat_map nodes children)).
Proof.
  induction 1 as [|child children Hchild _ IH]; intros result p; simpl.
  - tauto.
  - rewrite IH, Hchild, map_app, in_app_iff. tauto.
Qed.

Lemma flatten_In (dep : YarnDependency) :
  forall result p,
    In p (flatten dep result) <-> In p result \/ In p (map dep_path (nodes dep)).
Proof.
  induction dep as [name path children IH] using YarnDependency_nested_ind.
  intros result p. simpl.
  rewrite (fold_flatten_In children IH), add_In. intuition.
Qed.

Lemma flatten_all_In (deps : list YarnDependency) (result : list string) (p : string) :
  In p (fold_left (fun result dep => flatten dep result) deps result)
  <-> In p result \/ In p (map dep_path (flat_map nodes deps)).
Proof.
  apply fold_flatten_In. apply Forall_forall. intros dep _. apply flatten_In.
Qed.

Lemma fold_flatten_NoDup (children : list YarnDependency) :
  Forall (fun child => forall result, NoDup result -> NoDup (flatten child result))
         children ->
  forall result, NoDup result ->
    NoDup (fold_left (fun result child => flatten child result) children result).
Proof.
  induction 1 as [|child children Hchild _ IH]; intros result H; simpl.
  - assumption.
  - apply IH, Hchild, H.
Qed.

Lemma flatten_NoDup (dep : YarnDependency) :
  forall result, NoDup result -> NoDup (flatten dep result).
Proof.
  induction dep as [name path children IH] using YarnDependency_nested_ind.
  intros result H. simpl.
  apply (fold_flatten_NoDup children IH), add_NoDup, H.
Qed.

Lemma flatten_all_NoDup (deps : list YarnDependency) (result : list string) :
  NoDup result ->
  NoDup (fold_left (fun result dep => flatten dep result) deps result).
Proof.
  apply fold_flatten_NoDup. apply Forall_forall. intros dep _. apply flatten_NoDup.
Qed.

Lemma getYarnDependencies_selection path_join parseSemver yarnList
    cwd packagedDependencies result :
  getYarnDependencies path_join parseSemver yarnList cwd packagedDependencies
  = Some (Ok result) ->
  NoDup result /\ In cwd result.
Proof.
  unfold getYarnDependencies.
  destruct (getYarnProductionDependencies _ _ _ _ _) as [[deps|e]|];
    [|discriminate|discriminate].
  intros [= <-]. split.
  - apply flatten_all_NoDup. repeat constructor. simpl. tauto.
  - apply flatten_all_In. left. left. reflexivity.
Qed.

End Flatten.

(* ================================================================= *)
(** ** Claims settled by evaluation *)

(** C9: every successful enumeration, by the lockfile resolver and by the
    tree resolver, with or without an allow-list, returns a list without
    duplicates that holds the project root. *)
Theorem selection_holds_root_once :
  (forall path_join realpath readPackageJson dirname exists_ readDenoLock
          fuel cwd packagedDependencies result,
      getDenoDependencies path_join realpath readPackageJson dirname exists_
        readDenoLock fuel cwd packagedDependencies = Some (Ok result) ->
      NoDup result /\ In cwd result)
  /\ (forall path_join parseSemver yarnList cwd packagedDependencies result,
      getYarnDependencies path_join parseSemver yarnList cwd packagedDependencies
      = Some (Ok result) ->
      NoDup result /\ In cwd result).
Proof.
  split.
  - intros path_join realpath readPackageJson dirname exists_ readDenoLock
           fuel cwd packagedDependencies result.
    unfold getDenoDependencies.
    destruct (findDenoLock _ _ _ _ _) as [[denoLockPath|]|]; try discriminate.
    destruct (readDenoLock denoLockPath) as [denoLock|e]; simpl; try discriminate.
    intros [= H]. exact (getDenoDependenciesFrom_selection _ _ _ _ _ _ _ _ H).
  - intros path_join parseSemver yarnList cwd packagedDependencies result.
    apply getYarnDependencies_selection.
Qed.

Section Cyclic.

(** Two iterations of the workspace loop on the cyclic workspace bring the
    frontier back to where it was. *)
Lemma cyclic_two_iterations (fuel : nat) (collected : list Collected) :
  drainWorkspaces Sample.join (S (S fuel)) "/proj/deno.lock" Examples.cyclic
    Examples.cyclicCatalog ([("a", Some Examples.cyclicA)], [], collected)
  = drainWorkspaces Sample.join fuel "/proj/deno.lock" Examples.cyclic
      Examples.cyclicCatalog
      ([("a", Some Examples.cyclicA)], [],
       (collected ++ [Plain "/proj/a"; Plain "/proj/b"])%list).
Proof.
  replace (collected ++ [Plain "/proj/a"; Plain "/proj/b"])%list
    with (Js.push (Js.push collected (Plain "/proj/a")) (Plain "/proj/b")).
  - reflexivity.
  - unfold Js.push. rewrite <- app_assoc. reflexivity.
Qed.

Lemma cyclic_iterations (n : nat) :
  forall collected,
    drainWorkspaces Sample.join (2 * n) "/proj/deno.lock" Examples.cyclic
      Examples.cyclicCatalog ([("a", Some Examples.cyclicA)], [], collected)
    = Ok ([("a", Some Examples.cyclicA)], [],
          (collected ++ concat (repeat [Plain "/proj/a"; Plain "/proj/b"] n))%list).
Proof.
  induction n as [|n IH]; intros collected.
  - simpl. rewrite app_nil_r. reflexivity.
  - replace (2 * S n)%nat with (S (S (2 * n))) by lia.
    rewrite cyclic_two_iterations, IH.
    simpl repeat. simpl concat. rewrite <- app_assoc. reflexivity.
Qed.

Lemma drainRegistry_empty path_join fuel denoLockPath denoLock visited collected :
  drainRegistry path_join fuel denoLockPath denoLock ([], visited, collected)
  = Ok ([], visited, collected).
Proof. destruct fuel; reflexivity. Qed.

Lemma promiseAll_plain realpath (a b : string) (n : nat) :
  promiseAll realpath (concat (repeat [Plain a; Plain b] n))
  = Ok (concat (repeat [a; b] n)).
Proof.
  unfold promiseAll. induction n as [|n IH]; simpl.
  - reflexivity.
  - simpl in IH. rewrite IH. reflexivity.
Qed.

Lemma fold_add_present (arr set : list string) :
  incl arr set -> fold_left Js.add arr set = set.
Proof.
  induction arr as [|x arr IH]; intros H; simpl.
  - reflexivity.
  - assert (Hx : Js.mem x set = true) by (apply mem_In, H; left; reflexivity).
    unfold Js.add at 2. rewrite Hx. apply IH.
    intros y Hy. apply H. right. assumption.
Qed.

Lemma unique_alternating (a b cwd : string) (n : nat) :
  a <> b -> a <> cwd -> b <> cwd ->
  Js.unique (if negb (Js.mem cwd (concat (repeat [a; b] (S n))))
             then Js.push (concat (repeat [a; b] (S n))) cwd
             else concat (repeat [a; b] (S n)))
  = [a; b; cwd].
Proof.
  intros Hab Hac Hbc.
  assert (Hin : forall k x, In x (concat (repeat [a; b] k)) -> x = a \/ x = b).
  { intros k x H. apply in_concat in H. destruct H as [l [Hl Hx]].
    apply repeat_spec in Hl. subst l. simpl in Hx. intuition. }
  assert (Hmem : Js.mem cwd (concat (repeat [a; b] (S n))) = false).
  { apply mem_false. intros H. apply Hin in H. intuition congruence. }
  rewrite Hmem. cbn [negb].
  unfold Js.unique, Js.push. rewrite fold_left_app.
  change (concat (repeat [a; b] (S n)))
    with (a :: b :: concat (repeat [a; b] n)).
  cbn [fold_left].
  assert (Ha : Js.add [] a = [a]) by reflexivity.
  assert (Hb : Js.add [a] b = [a; b]).
  { unfold Js.add. cbn [Js.mem]. apply String.eqb_neq in Hab. rewrite Hab.
    reflexivity. }
  rewrite Ha, Hb.
  rewrite fold_add_present.
  - unfold Js.add. cbn [Js.mem]. apply String.eqb_neq in Hac, Hbc.
    rewrite Hac, Hbc. reflexivity.
  - intros x Hx. apply Hin in Hx. simpl. intuition.
Qed.

End Cyclic.

(** C1: the two traversals stop without an error when the cap is reached.
    On two workspace members that depend on each other the workspace loop
    runs its 10000 iterations, ends with a member still on the frontier,
    and the call returns a selection. *)
Theorem cap_reached_without_error :
  mapM (withLocalDeps Sample.join Examples.cyclicDisk "/proj/deno.lock")
       (iterDenoWorkspaceMembers Examples.cyclic) = Ok Examples.cyclicCatalog
  /\ drainWorkspaces Sample.join MAX_ITERS "/proj/deno.lock" Examples.cyclic
       Examples.cyclicCatalog ([("a", Some Examples.cyclicA)], [], [])
     = Ok ([("a", Some Examples.cyclicA)], [],
           concat (repeat [Plain "/proj/a"; Plain "/proj/b"] 5000))
  /\ getDenoDependenciesFrom Sample.join Sample.realpath Examples.cyclicDisk
       "/proj/deno.lock" Examples.cyclic "/proj" (Some ["a"])
     = Ok ["/proj/a"; "/proj/b"; "/proj"].
Proof.
  assert (Hcap : MAX_ITERS = (2 * 5000)%nat) by reflexivity.
  assert (Hcatalog :
            mapM (withLocalDeps Sample.join Examples.cyclicDisk "/proj/deno.lock")
                 (iterDenoWorkspaceMembers Examples.cyclic)
            = Ok Examples.cyclicCatalog) by reflexivity.
  assert (Hdrain :
            drainWorkspaces Sample.join MAX_ITERS "/proj/deno.lock" Examples.cyclic
              Examples.cyclicCatalog ([("a", Some Examples.cyclicA)], [], [])
            = Ok ([("a", Some Examples.cyclicA)], [],
                  concat (repeat [Plain "/proj/a"; Plain "/proj/b"] 5000))).
  { rewrite Hcap. apply (cyclic_iterations 5000 []). }
  split; [exact Hcatalog|]. split; [exact Hdrain|].
  unfold getDenoDependenciesFrom, selectDenoDependencies.
  rewrite Hcatalog. cbn [bind].
  change (seedRegistries Examples.cyclic ["a"]) with (@Ok (list string) []).
  cbn [bind].
  change (map (fun '(localPath, w) => (localPath, Some w))
            (filter (fun '(_, w) => Js.mem (name w) ["a"]) Examples.cyclicCatalog))
    with [("a", Some Examples.cyclicA)].
  match goal with
  | |- context [drainWorkspaces ?j ?n ?p ?l ?c ?st] =>
      replace (drainWorkspaces j n p l c st)
        with (@Ok (WorkspaceFrontier * list string * list Collected)
                ([("a", Some Examples.cyclicA)], [],
                 concat (repeat [Plain "/proj/a"; Plain "/proj/b"] 5000)))
        by (symmetry; exact Hdrain)
  end.
  cbn [bind].
  rewrite drainRegistry_empty. cbn [bind].
  rewrite promiseAll_plain. cbn [bind].
  apply (f_equal (@Ok (list string))).
  apply (unique_alternating "/proj/a" "/proj/b" "/proj" 4999); discriminate.
Qed.

(** C2: without an allow-list only the ["npm"] section is read.  On a
    document with one entry under ["npm"] and one under ["jsr"] the result
    holds the store path of the first and the project root, and no path
    for the second. *)
Theorem no_allow_list_reads_npm_only :
  getDenoDependenciesFrom Sample.join Sample.realpath (Sample.disk [])
    "/proj/deno.lock" Examples.twoRegistries "/proj" None
  = Ok ["/proj/node_modules/.deno/lodash@4.17.21/node_modules"; "/proj"].
Proof. vm_compute. reflexivity. Qed.

(** C3: the two keys of the specification split as it says, and a key of
    three packages loses its third: [split('_', 2)] keeps the first two
    pieces of the version tail and drops the rest. *)
Theorem split_drops_third_package :
  splitMultiPackageAtVersion "fdir@6.4.6_picomatch@4.0.2"
  = Ok ["fdir@6.4.6"; "picomatch@4.0.2"]
  /\ splitMultiPackageAtVersion "is-number@7.0.0" = Ok ["is-number@7.0.0"]
  /\ splitMultiPackageAtVersion "a@1.0.0_b@2.0.0_c@3.0.0"
     = Ok ["a@1.0.0"; "b@2.0.0"].
Proof. repeat split; vm_compute; reflexivity. Qed.

(** C4: a workspace dependency is a package name, and the frontier looks
    it up among the local paths.  When the member named ["lib"] lives in
    [packages/lib] and another member lives in [lib], the directory [lib]
    is recorded and [packages/lib] is not; in the usual layout, where no
    member lives in a directory named as the dependency, the call ends in
    a [TypeError]. *)
Theorem workspace_dependency_looked_up_by_path :
  getDenoDependenciesFrom Sample.join Sample.realpath Examples.shadowedDisk
    "/proj/deno.lock" Examples.shadowed "/proj" (Some ["app"])
  = Ok ["/proj/app"; "/proj/lib"; "/proj"]
  /\ getDenoDependenciesFrom Sample.join Sample.realpath Examples.monorepoDisk
       "/proj/deno.lock" Examples.monorepo "/proj" (Some ["app"])
     = Throw TypeError.
Proof. split; vm_compute; reflexivity. Qed.

(** C7: when [parseSemver] throws, the label is kept whole unless it is
    one character followed by ['@']: the pattern of the fallback matches a
    name of exactly one character. *)
Theorem fallback_keeps_long_labels :
  forall path_join parseSemver prefix prune c d rest kids,
    parseSemver (String c (String d rest)) = None ->
    d <> "@"%char ->
    (prune && testRange (String c (String d rest)) = false) ->
    exists children,
      asYarnDependency path_join parseSemver prefix
        (TreeNode (String c (String d rest)) kids) prune
      = Some (Dependency (String c (String d rest))
                (path_join [prefix; String c (String d rest)]) children).
Proof.
  intros path_join parseSemver prefix prune c d rest kids Hparse Hd Hprune.
  assert (Hname : replaceVersion (String c (String d rest)) = String c (String d rest)).
  { unfold replaceVersion.
    destruct d as [[] [] [] [] [] [] [] []]; try reflexivity. congruence. }
  cbn -[replaceVersion testRange].
  rewrite Hprune, Hparse, Hname. eexists. reflexivity.
Qed.

Lemma fallback_keeps_long_labels_witness :
  Sample.parseSemver "ab@latest" = None
  /\ "b"%char <> "@"%char
  /\ (false && testRange "ab@latest" = false)
  /\ exists children,
      asYarnDependency Sample.join Sample.parseSemver "/proj/node_modules"
        (TreeNode "ab@latest" []) false
      = Some (Dependency "ab@latest" (Sample.join ["/proj/node_modules"; "ab@latest"])
                children).
Proof.
  repeat split; try reflexivity; try discriminate.
  apply (fallback_keeps_long_labels Sample.join Sample.parseSemver
           "/proj/node_modules" false "a"%char "b"%char "@latest" []);
    [reflexivity | discriminate | reflexivity].
Defined.

(* ================================================================= *)
(** ** The reachability walk of the tree resolver *)

Section Walk.

Variable data : list (string * YarnDependency).
Hypothesis data_names : forall k dep, Js.lookup k data = Some dep -> dep_name dep = k.

Lemma isReached_names (reached : list YarnDependency) (dep : YarnDependency) :
  isReached reached dep = true <-> In (dep_name dep) (names reached).
Proof.
  unfold isReached, names. rewrite existsb_exists, in_map_iff.
  split; intros [r [H1 H2]]; exists r.
  - apply String.eqb_eq in H2. tauto.
  - rewrite String.eqb_eq. tauto.
Qed.

Lemma FromIndex_length (reached : list YarnDependency) :
  FromIndex data reached -> NoDup (names reached) ->
  (List.length reached <= List.length data)%nat.
Proof.
  intros Hfrom Hnodup.
  replace (List.length reached) with (List.length (names reached))
    by apply length_map.
  replace (List.length data) with (List.length (Js.keys data))
    by apply length_map.
  apply NoDup_incl_length; [assumption|].
  intros n Hn. apply in_map_iff in Hn. destruct Hn as [dep [<- Hdep]].
  apply Hfrom, lookup_In in Hdep.
  apply (in_map fst) in Hdep. exact Hdep.
Qed.

Lemma Reach_trans (n m k : string) :
  Reach data n m -> Reach data m k -> Reach data n k.
Proof.
  induction 1 as [n | n m dep child Hl Hc _ IH]; intros H.
  - assumption.
  - exact (Reach_child data n k dep child Hl Hc (IH H)).
Qed.

Lemma names_app (l1 l2 : list YarnDependency) :
  names (l1 ++ l2) = (names l1 ++ names l2)%list.
Proof. apply map_app. Qed.

Lemma visitEach_Visited
    (rec : string -> list YarnDependency -> option (result (list YarnDependency)))
    (bound : nat) :
  (forall name reached,
      FromIndex data reached -> NoDup (names reached) ->
      (bound <= List.length reached)%nat ->
      Visited data [name] reached (rec name reached)) ->
  forall from reached,
    FromIndex data reached -> NoDup (names reached) ->
    (bound <= List.length reached)%nat ->
    Visited data from reached (visitEach rec from reached).
Proof.
  intros Hrec from. induction from as [|n from IH]; intros reached Hfrom Hnodup Hlen.
  - simpl. exists []. rewrite app_nil_r.
    repeat split; try assumption; simpl; intros; tauto.
  - simpl. specialize (Hrec n reached Hfrom Hnodup Hlen).
    destruct (rec n reached) as [[reached1|e]|]; simpl in Hrec.
    + destruct Hrec as [added1 [-> [Hfrom1 [Hnodup1 [Hin1 [Hclosed1 Hreach1]]]]]].
      assert (Hlen1 : (bound <= List.length (reached ++ added1))%nat)
        by (rewrite length_app; lia).
      specialize (IH _ Hfrom1 Hnodup1 Hlen1).
      destruct (visitEach rec from (reached ++ added1)) as [[reached2|e]|];
        simpl in IH |- *.
      * destruct IH as [added2 [-> [Hfrom2 [Hnodup2 [Hin2 [Hclosed2 Hreach2]]]]]].
        exists (added1 ++ added2)%list. rewrite app_assoc.
        repeat split; try assumption.
        -- intros k [<- | Hk].
           ++ rewrite names_app. apply in_or_app. left. apply Hin1. left. reflexivity.
           ++ apply Hin2, Hk.
        -- intros dep child Hdep Hchild. apply in_app_or in Hdep.
           destruct Hdep as [Hdep | Hdep].
           ++ rewrite names_app. apply in_or_app. left.
              exact (Hclosed1 dep child Hdep Hchild).
           ++ exact (Hclosed2 dep child Hdep Hchild).
        -- intros dep Hdep. apply in_app_or in Hdep.
           destruct Hdep as [Hdep | Hdep].
           ++ destruct (Hreach1 dep Hdep) as [k [[<- | []] Hk]].
              exists n. split; [left; reflexivity | assumption].
           ++ destruct (Hreach2 dep Hdep) as [k [Hk1 Hk2]].
              exists k. split; [right; assumption | assumption].
      * destruct IH as [k [m [Hk [Hreach [Hmiss ->]]]]].
        exists k, m. repeat split; try assumption. right. assumption.
      * assumption.
    + destruct Hrec as [k [m [[<- | []] [Hreach [Hmiss ->]]]]].
      exists n, m. repeat split; try assumption. left. reflexivity.
    + assumption.
Qed.

Lemma visit_Visited (fuel : nat) :
  forall name reached,
    FromIndex data reached -> NoDup (names reached) ->
    (List.length data < List.length reached + fuel)%nat ->
    Visited data [name] reached (visit fuel data name reached).
Proof.
  induction fuel as [|fuel IH]; intros name reached Hfrom Hnodup Hlen.
  - pose proof (FromIndex_length reached Hfrom Hnodup). lia.
  - simpl. unfold find_dependency.
    destruct (Js.lookup name data) as [dep|] eqn:Hlookup.
    + pose proof (data_names _ _ Hlookup) as Hname.
      destruct (isReached reached dep) eqn:Hreached.
      * apply isReached_names in Hreached. rewrite Hname in Hreached.
        simpl. exists []. rewrite app_nil_r.
        repeat split; try assumption.
        -- intros n [<- | []]. assumption.
        -- intros ? ? [].
        -- intros ? [].
      * assert (Hnew : ~ In (dep_name dep) (names reached)).
        { intros H. apply isReached_names in H. congruence. }
        assert (Hfrom0 : FromIndex data (Js.push reached dep)).
        { intros d Hd. apply push_In in Hd. destruct Hd as [Hd | ->].
          - apply Hfrom, Hd.
          - rewrite Hname. assumption. }
        assert (Hnodup0 : NoDup (names (Js.push reached dep))).
        { unfold Js.push. rewrite names_app. simpl.
          apply NoDup_app; [assumption | repeat constructor; simpl; tauto |].
          intros n Hn [<- | []]. exact (Hnew Hn). }
        assert (Hrec : forall n r,
                   FromIndex data r -> NoDup (names r) ->
                   (S (List.length data) - fuel <= List.length r)%nat ->
                   Visited data [n] r (visit fuel data n r)).
        { intros n r Hf Hn Hl. apply IH; [assumption | assumption | lia]. }
        pose proof (visitEach_Visited (visit fuel data)
                      (S (List.length data) - fuel) Hrec
                      (map dep_name (dep_children dep)) (Js.push reached dep)
                      Hfrom0 Hnodup0) as Hloop.
        assert (Hlen0 : (S (List.length data) - fuel
                         <= List.length (Js.push reached dep))%nat).
        { unfold Js.push. rewrite length_app.
          change (List.length [dep]) with 1%nat. lia. }
        specialize (Hloop Hlen0).
        destruct (visitEach (visit fuel data) (map dep_name (dep_children dep))
                    (Js.push reached dep)) as [[reached'|e]|]; simpl in Hloop |- *.
        -- destruct Hloop as [added [-> [Hfrom' [Hnodup' [Hin' [Hclosed' Hreach']]]]]].
           exists (dep :: added). unfold Js.push in *.
           rewrite <- app_assoc in *. simpl in *.
           repeat split; try assumption.
           ++ intros n [<- | []]. rewrite names_app. apply in_or_app. right.
              left. assumption.
           ++ intros d child [<- | Hd] Hchild.
              ** apply Hin'. apply in_map. assumption.
              ** exact (Hclosed' d child Hd Hchild).
           ++ intros d [<- | Hd].
              ** exists name. split; [left; reflexivity|]. rewrite Hname.
                 constructor.
              ** destruct (Hreach' d Hd) as [k [Hk1 Hk2]].
                 apply in_map_iff in Hk1. destruct Hk1 as [child [<- Hchild]].
                 exists name. split; [left; reflexivity|].
                 exact (Reach_child data name _ dep child Hlookup Hchild Hk2).
        -- destruct Hloop as [k [m [Hk [Hreach [Hmiss ->]]]]].
           apply in_map_iff in Hk. destruct Hk as [child [<- Hchild]].
           exists name, m. repeat split; try assumption.
           ++ left. reflexivity.
           ++ exact (Reach_child data name _ dep child Hlookup Hchild Hreach).
        -- assumption.
    + simpl. exists name, name. repeat split; try assumption.
      * left. reflexivity.
      * constructor.
Qed.

End Walk.

(* ================================================================= *)
(** ** The index and the selection *)

Section Index.

Variable deps : list YarnDependency.
Variable data : list (string * YarnDependency).
Hypothesis built : buildIndex deps = Ok data.

Lemma forEach_index (l : list YarnDependency) :
  forall acc out,
    forEach (fun data dep =>
               match Js.lookup (dep_name dep) data with
               | Some _ => Throw (Error ("Dependency seen more than once: " ++ dep_name dep))
               | None => Ok (Js.push data (dep_name dep, dep))
               end) l acc = Ok out ->
    out = (acc ++ map (fun dep => (dep_name dep, dep)) l)%list
    /\ NoDup (names l)
    /\ (forall dep, In dep l -> ~ In (dep_name dep) (Js.keys acc)).
Proof.
  induction l as [|d l IH]; intros acc out; simpl.
  - intros [= <-]. rewrite app_nil_r. repeat split; [constructor | tauto].
  - destruct (Js.lookup (dep_name d) acc) eqn:Hd; simpl; [discriminate|].
    intros H. apply IH in H. destruct H as [-> [Hnodup Hfresh]].
    apply lookup_None in Hd.
    assert (Hkeys : forall x, In x l ->
                      ~ In (dep_name x) (Js.keys acc) /\ dep_name x <> dep_name d).
    { intros x Hx. specialize (Hfresh x Hx). unfold Js.push, Js.keys in Hfresh.
      rewrite map_app, in_app_iff in Hfresh. simpl in Hfresh.
      split; [tauto | intros E; apply Hfresh; right; left; congruence]. }
    unfold Js.push. rewrite <- app_assoc. simpl. repeat split.
    + constructor; [|assumption].
      intros H. apply in_map_iff in H. destruct H as [x [E Hx]].
      exact (proj2 (Hkeys x Hx) E).
    + intros x [<- | Hx]; [assumption | apply Hkeys, Hx].
Qed.

Lemma index_entries : data = map (fun dep => (dep_name dep, dep)) deps.
Proof. exact (proj1 (forEach_index deps [] data built)). Qed.

Lemma index_NoDup : NoDup (names deps).
Proof. exact (proj1 (proj2 (forEach_index deps [] data built))). Qed.

Lemma index_length : List.length data = List.length deps.
Proof. rewrite index_entries. apply length_map. Qed.

Lemma index_lookup (k : string) (dep : YarnDependency) :
  Js.lookup k data = Some dep <-> In dep deps /\ dep_name dep = k.
Proof.
  rewrite index_entries. pose proof index_NoDup as Hnodup. clear built.
  induction deps as [|d l IH]; simpl.
  - split; [discriminate | tauto].
  - inversion Hnodup as [|? ? Hfresh Hnodup']; subst.
    destruct (String.eqb (dep_name d) k) eqn:E.
    + apply String.eqb_eq in E. split.
      * intros [= ->]. tauto.
      * intros [[-> | Hin] Hk]; [reflexivity|].
        exfalso. apply Hfresh. apply in_map_iff. exists dep. split; congruence.
    + apply String.eqb_neq in E. rewrite (IH Hnodup'). split.
      * tauto.
      * intros [[-> | Hin] Hk]; [contradiction | tauto].
Qed.

Lemma index_names (k : string) (dep : YarnDependency) :
  Js.lookup k data = Some dep -> dep_name dep = k.
Proof. intros H. apply index_lookup in H. tauto. Qed.

(** The walk from the allow-list, started with nothing reached. *)
Lemma select_Visited (packagedDependencies : list string) :
  Visited data packagedDependencies []
    (selectYarnDependencies deps packagedDependencies).
Proof.
  unfold selectYarnDependencies. rewrite built.
  apply (visitEach_Visited data (visit (S (List.length deps)) data) 0).
  - intros name reached Hfrom Hnodup _.
    apply (visit_Visited data index_names); [assumption | assumption |].
    rewrite index_length. lia.
  - intros dep [].
  - constructor.
  - simpl. lia.
Qed.

(** What is reached is closed under the children's names. *)
Lemma Reach_reached (reached : list YarnDependency) :
  FromIndex data reached ->
  (forall dep child, In dep reached -> In child (dep_children dep) ->
                     In (dep_name child) (names reached)) ->
  forall n m, Reach data n m -> In n (names reached) -> In m (names reached).
Proof.
  intros Hfrom Hclosed n m H.
  induction H as [n | n m dep child Hlookup Hchild _ IH]; intros Hn.
  - assumption.
  - apply IH. apply in_map_iff in Hn. destruct Hn as [d [Hd1 Hd2]].
    pose proof (Hfrom d Hd2) as Hd3. rewrite Hd1, Hlookup in Hd3.
    injection Hd3 as ->. exact (Hclosed d child Hd2 Hchild).
Qed.

End Index.

(* ================================================================= *)
(** ** Claims on the tree resolver's selection *)

(** C10: the index holds the top-level nodes by name, and the walk looks
    every name up in it, the names of children as well as the names of the
    allow-list.  The call throws the missing-dependency error exactly when
    a name reached from the allow-list is not the name of a top-level
    node; when it returns, it returns the top-level nodes whose names are
    reached. *)
Theorem walk_goes_through_top_level_nodes :
  forall deps data packagedDependencies,
    buildIndex deps = Ok data ->
    (forall k dep, Js.lookup k data = Some dep <-> In dep deps /\ dep_name dep = k)
    /\ ((exists n m, In n packagedDependencies /\ Reach data n m
                     /\ Js.lookup m data = None) ->
        exists n m, In n packagedDependencies /\ Reach data n m
                    /\ Js.lookup m data = None
                    /\ selectYarnDependencies deps packagedDependencies
                       = Some (Throw (Error ("Could not find dependency: " ++ m))))
    /\ ((forall n m, In n packagedDependencies -> Reach data n m ->
                     Js.lookup m data <> None) ->
        exists reached,
          selectYarnDependencies deps packagedDependencies = Some (Ok reached))
    /\ (forall reached,
           selectYarnDependencies deps packagedDependencies = Some (Ok reached) ->
           forall dep,
             In dep reached
             <-> In dep deps
                 /\ exists n, In n packagedDependencies /\ Reach data n (dep_name dep)).
Proof.
  intros deps data L built.
  split; [intros k dep; apply (index_lookup deps data built)|].
  pose proof (select_Visited deps data built L) as H.
  destruct (selectYarnDependencies deps L) as [[reached|e]|]; simpl in H;
    [| |contradiction].
  - destruct H as [added [E [Hfrom [Hnodup [Hin [Hclosed Hreach]]]]]].
    simpl in E. subst added.
    assert (Hall : forall n m, In n L -> Reach data n m ->
                     exists dep, In dep reached /\ dep_name dep = m
                                 /\ Js.lookup m data = Some dep).
    { intros n m Hn Hm.
      pose proof (Reach_reached data reached Hfrom Hclosed n m Hm (Hin n Hn)) as Hm'.
      apply in_map_iff in Hm'. destruct Hm' as [dep [<- Hdep]].
      exists dep. repeat split; [assumption | apply Hfrom, Hdep]. }
    split; [|split].
    + intros [n [m [Hn [Hm Hmiss]]]].
      destruct (Hall n m Hn Hm) as [dep [_ [_ Hdep]]]. congruence.
    + intros _. exists reached. reflexivity.
    + intros reached' [= <-] dep. split.
      * intros Hdep. split.
        -- apply (index_lookup deps data built (dep_name dep) dep), Hfrom, Hdep.
        -- exact (Hreach dep Hdep).
      * intros [Hdep [n [Hn Hm]]].
        destruct (Hall n _ Hn Hm) as [dep' [Hdep' [_ Hlookup]]].
        assert (Hlookup' : Js.lookup (dep_name dep) data = Some dep)
          by (apply (index_lookup deps data built); tauto).
        congruence.
  - destruct H as [n [m [Hn [Hm [Hmiss ->]]]]].
    split; [|split].
    + intros _. exists n, m. repeat split; assumption.
    + intros Hall. exfalso. exact (Hall n m Hn Hm Hmiss).
    + discriminate.
Qed.

Lemma walk_goes_through_top_level_nodes_witness :
  buildIndex Examples.danglingDeps = Ok Examples.danglingIndex
  /\ exists n m,
      In n ["a"] /\ Reach Examples.danglingIndex n m
      /\ Js.lookup m Examples.danglingIndex = None
      /\ selectYarnDependencies Examples.danglingDeps ["a"]
         = Some (Throw (Error ("Could not find dependency: " ++ m))).
Proof.
  assert (built : buildIndex Examples.danglingDeps = Ok Examples.danglingIndex)
    by reflexivity.
  split; [exact built|].
  apply (walk_goes_through_top_level_nodes
           Examples.danglingDeps Examples.danglingIndex ["a"] built).
  exists "a", "zz".
  split; [left; reflexivity|].
  split; [|reflexivity].
  apply (Reach_child Examples.danglingIndex "a" "zz"
           (Dependency "a" "/proj/node_modules/a"
              [Dependency "zz" "/proj/node_modules/a/node_modules/zz" []])
           (Dependency "zz" "/proj/node_modules/a/node_modules/zz" [])).
  - reflexivity.
  - left. reflexivity.
  - apply Reach_here.
Defined.

(** C5: when the selection succeeds, every name of the allow-list is the
    name of a top-level node that is selected, the path of every node of
    the tree of every selected node is in the result, and so is the path
    of the node of each allow-listed name. *)
Theorem allow_list_selects_whole_subtrees :
  forall path_join parseSemver yarnList cwd packagedDependencies result,
    getYarnDependencies path_join parseSemver yarnList cwd (Some packagedDependencies)
    = Some (Ok result) ->
    exists trees reached,
      yarnList cwd = Ok trees
      /\ selectYarnDependencies
           (convertTrees path_join parseSemver cwd trees false) packagedDependencies
         = Some (Ok reached)
      /\ (forall n, In n packagedDependencies ->
            exists dep,
              In dep (convertTrees path_join parseSemver cwd trees false)
              /\ dep_name dep = n /\ In dep reached /\ In (dep_path dep) result)
      /\ (forall dep node, In dep reached -> In node (nodes dep) ->
                           In (dep_path node) result).
Proof.
  intros path_join parseSemver yarnList cwd L result.
  unfold getYarnDependencies, getYarnProductionDependencies.
  destruct (yarnList cwd) as [trees|e]; [|discriminate]. simpl negb.
  set (deps := convertTrees path_join parseSemver cwd trees false).
  destruct (selectYarnDependencies deps L) as [[reached|e]|] eqn:Hselect;
    [|discriminate|discriminate].
  intros [= <-]. exists trees, reached.
  assert (Hnodes : forall dep node, In dep reached -> In node (nodes dep) ->
            In (dep_path node)
               (fold_left (fun result dep => flatten dep result) reached [cwd])).
  { intros dep node Hdep Hnode. apply flatten_all_In. right.
    apply in_map, in_flat_map. exists dep. tauto. }
  repeat split; try assumption.
  intros n Hn. unfold selectYarnDependencies in Hselect.
  destruct (buildIndex deps) as [data|e] eqn:built; [|discriminate].
  pose proof (select_Visited deps data built L) as H.
  unfold selectYarnDependencies in H. rewrite built, Hselect in H. simpl in H.
  destruct H as [added [E [Hfrom [_ [Hin _]]]]].
  specialize (Hin n Hn). apply in_map_iff in Hin. destruct Hin as [dep [Hname Hdep]].
  exists dep. repeat split; try assumption.
  - apply (index_lookup deps data built (dep_name dep) dep), Hfrom, Hdep.
  - apply (Hnodes dep dep Hdep), nodes_self.
Qed.

Lemma allow_list_selects_whole_subtrees_witness :
  getYarnDependencies Sample.join Sample.parseSemver (fun _ => Ok Examples.forest)
    "/proj" (Some ["a"])
  = Some (Ok ["/proj"; "/proj/node_modules/a"; "/proj/node_modules/a/node_modules/b";
              "/proj/node_modules/b"; "/proj/node_modules/b/node_modules/c";
              "/proj/node_modules/c"])
  /\ exists trees reached,
      Ok Examples.forest = Ok trees
      /\ selectYarnDependencies
           (convertTrees Sample.join Sample.parseSemver "/proj" trees false) ["a"]
         = Some (Ok reached)
      /\ (forall n, In n ["a"] ->
            exists dep,
              In dep (convertTrees Sample.join Sample.parseSemver "/proj" trees false)
              /\ dep_name dep = n /\ In dep reached
              /\ In (dep_path dep)
                    ["/proj"; "/proj/node_modules/a";
                     "/proj/node_modules/a/node_modules/b";
                     "/proj/node_modules/b"; "/proj/node_modules/b/node_modules/c";
                     "/proj/node_modules/c"])
      /\ (forall dep node, In dep reached -> In node (nodes dep) ->
            In (dep_path node)
               ["/proj"; "/proj/node_modules/a";
                "/proj/node_modules/a/node_modules/b";
                "/proj/node_modules/b"; "/proj/node_modules/b/node_modules/c";
                "/proj/node_modules/c"]).
Proof.
  split; [reflexivity|].
  apply (allow_list_selects_whole_subtrees Sample.join Sample.parseSemver
           (fun _ => Ok Examples.forest) "/proj" ["a"]).
  reflexivity.
Defined.

(* ================================================================= *)
(** ** Pruning *)

Section Pruning.

Variable path_join : list string -> string.
Variable parseSemver : string -> option string.







End Pruning.



(* ================================================================= *)
(** ** Tokens without a version *)

Section Unversioned.

Variable path_join : list string -> string.

Lemma splitPackageAtVersion_unversioned (s name : string) :
  splitPackageAtVersion s = Ok (name, None) -> name = s.
Proof.
  unfold splitPackageAtVersion.
  destruct (Js.indexOf s "@" _ =? -1).
  - intros [= <-]. reflexivity.
  - destruct (Js.falsy _); discriminate.
Qed.

Lemma splitMulti_unversioned (s name : string) :
  s <> "" ->
  splitPackageAtVersion s = Ok (name, None) ->
  splitMultiPackageAtVersion s = Ok [s].
Proof.
  intros Hs H. unfold splitMultiPackageAtVersion.
  destruct s as [|c s']; [congruence|].
  cbn [String.length splitMultiLoop]. rewrite H. reflexivity.
Qed.

Lemma find_first {A : Type} (f : A -> bool) (before after : list A) (x : A) :
  (forall y, In y before -> f y = false) -> f x = true ->
  find f (before ++ x :: after) = Some x.
Proof.
  intros Hbefore Hx. induction before as [|y before IH]; simpl.
  - rewrite Hx. reflexivity.
  - rewrite (Hbefore y (or_introl eq_refl)). apply IH.
    intros z Hz. apply Hbefore. right. assumption.
Qed.

Lemma find_none_all {A : Type} (f : A -> bool) (l : list A) :
  (forall y, In y l -> f y = false) -> find f l = None.
Proof.
  induction l as [|y l IH]; intros H; simpl.
  - reflexivity.
  - rewrite (H y (or_introl eq_refl)). apply IH.
    intros z Hz. apply H. right. assumption.
Qed.

Lemma registryStep_parsed denoLockPath denoLock token registryId packageAtVersion st :
  Js.split token ":" 2 = [registryId; packageAtVersion] ->
  registryId <> "" -> packageAtVersion <> "" ->
  registryStep path_join denoLockPath denoLock token st
  = (key <- inferVersion denoLock registryId packageAtVersion ;;
     visitEntry path_join denoLockPath denoLock registryId key st).
Proof.
  intros Hsplit Hr Hp. unfold registryStep. rewrite Hsplit. simpl.
  destruct registryId; [congruence|]. destruct packageAtVersion; [congruence|].
  reflexivity.
Qed.

End Unversioned.

(** C8: the entry of a key is read as [section[key]], which also finds
    the members of [Object.prototype].  A package named ["constructor"]
    that has no key in its registry is taken to have an entry: the
    iteration ends without the missing-entry error and a store path is
    recorded for it.  A missing package with another name does throw. *)
Theorem inherited_member_passes_for_entry :
  drainRegistry Sample.join MAX_ITERS "/proj/deno.lock" Examples.inheriting
    (["npm:a@1.0.0"], ["npm:a@1.0.0"], [])
  = Ok ([], ["npm:a@1.0.0"; "npm:constructor"],
        [denoPath Sample.join "/proj/deno.lock" "a@1.0.0";
         denoPath Sample.join "/proj/deno.lock" "constructor"])
  /\ getDenoDependenciesFrom Sample.join Sample.realpath (Sample.disk [])
       "/proj/deno.lock" Examples.inheriting "/proj" (Some ["a"])
     = Ok ["/proj/node_modules/.deno/a@1.0.0/node_modules";
           "/proj/node_modules/.deno/constructor/node_modules"; "/proj"]
  /\ drainRegistry Sample.join MAX_ITERS "/proj/deno.lock" Examples.twoVersions
       (["npm:zed"], ["npm:zed"], [])
     = Throw (Error "Could not find 'zed' in deno.lock registry npm ").
Proof. repeat split; vm_compute; reflexivity. Qed.

(** X13: a token without a version stands for the first key of its
    registry that starts with ["name@"], in the order of the document; and
    when no key of the registry starts so, the keys being of the form
    ["name@version"] and the name not being that of a member of
    [Object.prototype], the iteration throws the missing-entry error and so
    does the traversal. *)
Theorem first_key_stands_for_unversioned_token :
  forall path_join denoLockPath denoLock token registryId packageAtVersion
         packageName section,
    Js.split token ":" 2 = [registryId; packageAtVersion] ->
    registryId <> "" ->
    packageAtVersion <> "" ->
    splitPackageAtVersion packageAtVersion = Ok (packageName, None) ->
    Js.lookup registryId (registries denoLock) = Some section ->
    (forall before key after st,
        Js.keys section = (before ++ key :: after)%list ->
        (forall k, In k before -> Js.startsWith k (packageName ++ "@") = false) ->
        Js.startsWith key (packageName ++ "@") = true ->
        registryStep path_join denoLockPath denoLock token st
        = visitEntry path_join denoLockPath denoLock registryId key st)
    /\ ((forall k, In k (Js.keys section) ->
                   Js.startsWith k (packageName ++ "@") = false) ->
        (forall k, In k (Js.keys section) ->
                   exists n v, splitPackageAtVersion k = Ok (n, Some v)) ->
        ~ In packageAtVersion Js.prototypeMembers ->
        forall fuel frontier registryDependencies collected,
          registryStep path_join denoLockPath denoLock token
            (frontier, registryDependencies, collected)
          = Throw (Error ("Could not find '" ++ packageAtVersion
                            ++ "' in deno.lock registry " ++ registryId ++ " "))
          /\ drainRegistry path_join (S fuel) denoLockPath denoLock
               (Js.push frontier token, registryDependencies, collected)
             = Throw (Error ("Could not find '" ++ packageAtVersion
                               ++ "' in deno.lock registry " ++ registryId ++ " "))).
Proof.
  intros path_join denoLockPath denoLock token registryId packageAtVersion
         packageName section Hsplit Hr Hp Hname Hsection.
  split.
  - intros before key after st Hkeys Hbefore Hkey.
    rewrite (registryStep_parsed path_join _ _ _ _ _ _ Hsplit Hr Hp).
    unfold inferVersion. rewrite Hname. cbn [bind]. rewrite Hsection, Hkeys.
    rewrite (find_first _ before after key Hbefore Hkey). reflexivity.
  - intros Hnone Hkeys Hproto fuel frontier registryDependencies collected.
    assert (Hstep :
              registryStep path_join denoLockPath denoLock token
                (frontier, registryDependencies, collected)
              = Throw (Error ("Could not find '" ++ packageAtVersion
                                ++ "' in deno.lock registry " ++ registryId ++ " "))).
    { rewrite (registryStep_parsed path_join _ _ _ _ _ _ Hsplit Hr Hp).
      unfold inferVersion. rewrite Hname. cbn [bind]. rewrite Hsection.
      rewrite (find_none_all _ _ Hnone). cbn [bind].
      unfold visitEntry.
      rewrite (splitMulti_unversioned _ _ Hp Hname). cbn [bind fold_left].
      rewrite Hsection. unfold Js.read.
      destruct (Js.lookup packageAtVersion section) as [packageMeta|] eqn:Hentry.
      - exfalso. apply lookup_In in Hentry.
        apply (in_map fst) in Hentry. simpl in Hentry.
        destruct (Hkeys _ Hentry) as [n [v Hv]]. congruence.
      - destruct (existsb (String.eqb packageAtVersion) Js.prototypeMembers)
          eqn:E; [|reflexivity].
        exfalso. apply Hproto. apply existsb_exists in E.
        destruct E as [m [Hm E]]. apply String.eqb_eq in E. subst m. exact Hm. }
    split; [exact Hstep|].
    cbn [drainRegistry]. rewrite pop_push. rewrite Hstep. reflexivity.
Qed.

Lemma first_key_stands_for_unversioned_token_witness :
  registryStep Sample.join "/proj/deno.lock" Examples.twoVersions "npm:foo" ([], [], [])
  = visitEntry Sample.join "/proj/deno.lock" Examples.twoVersions "npm" "foo@2.0.0"
      ([], [], [])
  /\ drainRegistry Sample.join 1 "/proj/deno.lock" Examples.twoVersions
       (Js.push [] "npm:zed", [], [])
     = Throw (Error "Could not find 'zed' in deno.lock registry npm ").
Proof.
  split.
  - apply (proj1 (first_key_stands_for_unversioned_token Sample.join "/proj/deno.lock"
                    Examples.twoVersions "npm:foo" "npm" "foo" "foo"
                    Examples.twoVersionsNpm eq_refl ltac:(discriminate)
                    ltac:(discriminate) eq_refl eq_refl)
             ["bar@1.0.0"] "foo@2.0.0" ["foo@1.0.0"] ([], [], []) eq_refl).
    + intros k [<- | []]. reflexivity.
    + reflexivity.
  - apply (proj2 (first_key_stands_for_unversioned_token Sample.join "/proj/deno.lock"
                    Examples.twoVersions "npm:zed" "npm" "zed" "zed"
                    Examples.twoVersionsNpm eq_refl ltac:(discriminate)
                    ltac:(discriminate) eq_refl eq_refl)).
    + intros k [<- | [<- | [<- | []]]]; reflexivity.
    + intros k [<- | [<- | [<- | []]]]; eexists; eexists; reflexivity.
    + simpl. intuition discriminate.
Defined.

Lemma selection_holds_root_once_witness :
  (getDenoDependencies Sample.join Sample.realpath (Sample.disk []) Sample.dirname
     (Sample.exists_ ["/proj/deno.lock"]) (fun _ => Ok Examples.twoRegistries)
     4 "/proj/packages/app" None
   = Some (Ok ["/proj/node_modules/.deno/lodash@4.17.21/node_modules";
               "/proj/packages/app"])
   /\ NoDup ["/proj/node_modules/.deno/lodash@4.17.21/node_modules";
             "/proj/packages/app"]
   /\ In "/proj/packages/app"
         ["/proj/node_modules/.deno/lodash@4.17.21/node_modules";
          "/proj/packages/app"])
  /\ (getYarnDependencies Sample.join Sample.parseSemver (fun _ => Ok Examples.forest)
        "/proj" None
      = Some (Ok ["/proj"; "/proj/node_modules/a"; "/proj/node_modules/b";
                  "/proj/node_modules/c"])
      /\ NoDup ["/proj"; "/proj/node_modules/a"; "/proj/node_modules/b";
                "/proj/node_modules/c"]
      /\ In "/proj" ["/proj"; "/proj/node_modules/a"; "/proj/node_modules/b";
                     "/proj/node_modules/c"]).
Proof.
  split.
  - split; [reflexivity|].
    apply (proj1 selection_holds_root_once Sample.join Sample.realpath (Sample.disk [])
             Sample.dirname (Sample.exists_ ["/proj/deno.lock"])
             (fun _ => Ok Examples.twoRegistries) 4%nat "/proj/packages/app" None).
    reflexivity.
  - split; [reflexivity|].
    apply (proj2 selection_holds_root_once Sample.join Sample.parseSemver
             (fun _ => Ok Examples.forest) "/proj" None).
    reflexivity.
Defined.

(* ================================================================= *)
(** ** More on the tree resolver *)

Section Selected.

Lemma forEach_index_app (l1 l2 : list YarnDependency) (acc : list (string * YarnDependency)) :
  forEach (fun data dep =>
             match Js.lookup (dep_name dep) data with
             | Some _ => Throw (Error ("Dependency seen more than once: " ++ dep_name dep))
             | None => Ok (Js.push data (dep_name dep, dep))
             end) (l1 ++ l2) acc
  = (data <- forEach (fun data dep =>
                        match Js.lookup (dep_name dep) data with
                        | Some _ =>
                            Throw (Error ("Dependency seen more than once: " ++ dep_name dep))
                        | None => Ok (Js.push data (dep_name dep, dep))
                        end) l1 acc ;;
     forEach (fun data dep =>
                match Js.lookup (dep_name dep) data with
                | Some _ => Throw (Error ("Dependency seen more than once: " ++ dep_name dep))
                | None => Ok (Js.push data (dep_name dep, dep))
                end) l2 data).
Proof.
  revert acc. induction l1 as [|d l1 IH]; intros acc; simpl.
  - reflexivity.
  - destruct (Js.lookup (dep_name d) acc); simpl; [reflexivity | apply IH].
Qed.

Lemma buildIndex_NoDup (deps : list YarnDependency) :
  NoDup (names deps) ->
  buildIndex deps = Ok (map (fun dep => (dep_name dep, dep)) deps).
Proof.
  unfold buildIndex.
  change (map (fun dep => (dep_name dep, dep)) deps)
    with ([] ++ map (fun dep => (dep_name dep, dep)) deps)%list.
  assert (H : forall l acc,
             NoDup (Js.keys acc ++ names l) ->
             forEach (fun data dep =>
                        match Js.lookup (dep_name dep) data with
                        | Some _ =>
                            Throw (Error ("Dependency seen more than once: " ++ dep_name dep))
                        | None => Ok (Js.push data (dep_name dep, dep))
                        end) l acc
             = Ok (acc ++ map (fun dep => (dep_name dep, dep)) l)%list).
  { induction l as [|d l IH]; intros acc Hnodup; simpl.
    - rewrite app_nil_r. reflexivity.
    - assert (Hfresh : Js.lookup (dep_name d) acc = None).
      { apply lookup_None. intros Hin.
        apply NoDup_remove_2 in Hnodup. apply Hnodup.
        apply in_or_app. left. assumption. }
      rewrite Hfresh. simpl. unfold Js.push. rewrite IH.
      + rewrite <- app_assoc. reflexivity.
      + unfold Js.keys. rewrite map_app. simpl. rewrite <- app_assoc. exact Hnodup. }
  intros Hnodup. apply H. exact Hnodup.
Qed.

End Selected.

(** X1: the index is built exactly when the top-level names are pairwise
    distinct; otherwise the constructor throws at the first node whose
    name was seen before, naming it. *)
Theorem index_rejects_duplicate_names :
  forall deps,
    (NoDup (names deps) ->
     buildIndex deps = Ok (map (fun dep => (dep_name dep, dep)) deps))
    /\ (forall data, buildIndex deps = Ok data -> NoDup (names deps))
    /\ (forall before dep after,
           deps = (before ++ dep :: after)%list ->
           NoDup (names before) ->
           In (dep_name dep) (names before) ->
           buildIndex deps
           = Throw (Error ("Dependency seen more than once: " ++ dep_name dep))).
Proof.
  intros deps. split; [apply buildIndex_NoDup|]. split.
  - intros data built. exact (index_NoDup deps data built).
  - intros before dep after -> Hnodup Hseen.
    unfold buildIndex. rewrite forEach_index_app.
    pose proof (buildIndex_NoDup before Hnodup) as Hbefore.
    unfold buildIndex in Hbefore. rewrite Hbefore. simpl.
    destruct (Js.lookup (dep_name dep) _) eqn:E; [reflexivity|].
    exfalso. apply lookup_None in E. apply E.
    unfold Js.keys. rewrite map_map. exact Hseen.
Qed.

Lemma index_rejects_duplicate_names_witness :
  buildIndex [Dependency "foo" "/proj/node_modules/foo" [];
              Dependency "bar" "/proj/node_modules/bar" [];
              Dependency "foo" "/proj/node_modules/foo" []]
  = Throw (Error "Dependency seen more than once: foo").
Proof.
  apply (proj2 (proj2 (index_rejects_duplicate_names _))
           [Dependency "foo" "/proj/node_modules/foo" [];
            Dependency "bar" "/proj/node_modules/bar" []]
           (Dependency "foo" "/proj/node_modules/foo" []) [] eq_refl).
  - repeat constructor; simpl; intuition discriminate.
  - left. reflexivity.
Defined.

(** X2: the selection ends on every forest and every allow-list, also
    when the names of children lead back to a node already visited; what
    it returns are top-level nodes, each once. *)
Theorem selection_ends :
  forall deps packagedDependencies,
    exists out,
      selectYarnDependencies deps packagedDependencies = Some out
      /\ match out with
         | Ok reached => NoDup (names reached) /\ incl reached deps
         | Throw _ => True
         end.
Proof.
  intros deps L.
  destruct (buildIndex deps) as [data|e] eqn:built.
  - pose proof (select_Visited deps data built L) as H.
    destruct (selectYarnDependencies deps L) as [[reached|e]|]; simpl in H;
      [| |contradiction].
    + exists (Ok reached). split; [reflexivity|].
      destruct H as [added [_ [Hfrom [Hnodup _]]]]. split; [assumption|].
      intros dep Hdep.
      apply (index_lookup deps data built (dep_name dep) dep), Hfrom, Hdep.
    + exists (Throw e). split; [reflexivity | exact I].
  - unfold selectYarnDependencies. rewrite built.
    exists (Throw e). split; [reflexivity | exact I].
Qed.

(** X3: the result of the tree resolver is the project root, first, and
    the paths of all the nodes of the trees that
    [getYarnProductionDependencies] returns, and nothing else. *)
Theorem tree_result_is_root_and_node_paths :
  forall path_join parseSemver yarnList cwd packagedDependencies result,
    getYarnDependencies path_join parseSemver yarnList cwd packagedDependencies
    = Some (Ok result) ->
    exists deps,
      getYarnProductionDependencies path_join parseSemver yarnList cwd
        packagedDependencies = Some (Ok deps)
      /\ hd_error result = Some cwd
      /\ forall p,
          In p result
          <-> p = cwd \/ exists dep node,
                           In dep deps /\ In node (nodes dep) /\ dep_path node = p.
Proof.
  intros path_join parseSemver yarnList cwd pd result.
  unfold getYarnDependencies.
  destruct (getYarnProductionDependencies _ _ _ _ _) as [[deps|e]|];
    [|discriminate|discriminate].
  intros [= <-]. exists deps. split; [reflexivity|]. split.
  - assert (H : forall (l : list YarnDependency) acc x,
               hd_error acc = Some x ->
               hd_error (fold_left (fun result dep => flatten dep result) l acc)
               = Some x).
    { assert (Hadd : forall acc x y, hd_error acc = Some x ->
                                     hd_error (Js.add acc y) = Some x).
      { intros acc x y. unfold Js.add, Js.push.
        destruct (Js.mem y acc); [tauto|].
        destruct acc; [discriminate | simpl; tauto]. }
      assert (Hflat : forall dep acc x, hd_error acc = Some x ->
                                        hd_error (flatten dep acc) = Some x).
      { induction dep as [n p children IH] using YarnDependency_nested_ind.
        intros acc x Hx. simpl.
        generalize (Js.add acc p) (Hadd acc x p Hx).
        induction IH as [|child children Hchild _ IHchildren]; intros acc' Hacc'; simpl.
        - assumption.
        - apply IHchildren, Hchild, Hacc'. }
      induction l as [|dep l IHl]; intros acc x Hx; simpl.
      - assumption.
      - apply IHl, Hflat, Hx. }
    apply H. reflexivity.
  - intros p. rewrite flatten_all_In. simpl. split.
    + intros [[<- | []] | H]; [left; reflexivity|].
      right. apply in_map_iff in H. destruct H as [node [Hp Hnode]].
      apply in_flat_map in Hnode. destruct Hnode as [dep [Hdep Hnode]].
      exists dep, node. tauto.
    + intros [-> | [dep [node [Hdep [Hnode <-]]]]]; [left; left; reflexivity|].
      right. apply in_map, in_flat_map. exists dep. tauto.
Qed.

Lemma tree_result_is_root_and_node_paths_witness :
  exists deps,
    getYarnProductionDependencies Sample.join Sample.parseSemver
      (fun _ => Ok Examples.forest) "/proj" None = Some (Ok deps)
    /\ hd_error ["/proj"; "/proj/node_modules/a"; "/proj/node_modules/b";
                 "/proj/node_modules/c"] = Some "/proj"
    /\ forall p,
        In p ["/proj"; "/proj/node_modules/a"; "/proj/node_modules/b";
              "/proj/node_modules/c"]
        <-> p = "/proj" \/ exists dep node,
                             In dep deps /\ In node (nodes dep) /\ dep_path node = p.
Proof.
  apply (tree_result_is_root_and_node_paths Sample.join Sample.parseSemver
           (fun _ => Ok Examples.forest) "/proj" None).
  reflexivity.
Defined.

(* ================================================================= *)
(** ** Locating the lock file *)

Section Locate.

Variable path_join : list string -> string.
Variable dirname : string -> string.
Variable exists_ : string -> bool.

Lemma findDenoLock_found (fuel : nat) :
  forall dir lockFile,
    findDenoLock path_join dirname exists_ fuel dir = Some (Some lockFile) ->
    exists k,
      lockFile = path_join [ancestor dirname k dir; "deno.lock"]
      /\ exists_ lockFile = true
      /\ dirname (ancestor dirname k dir) <> ancestor dirname k dir
      /\ forall j, (j < k)%nat ->
           exists_ (path_join [ancestor dirname j dir; "deno.lock"]) = false
           /\ dirname (ancestor dirname j dir) <> ancestor dirname j dir.
Proof.
  induction fuel as [|fuel IH]; intros dir lockFile; simpl; [discriminate|].
  destruct (String.eqb dir (dirname dir)) eqn:Hroot; [discriminate|].
  apply String.eqb_neq in Hroot.
  destruct (exists_ (path_join [dir; "deno.lock"])) eqn:Hexists.
  - intros [= <-]. exists 0%nat. simpl. repeat split; try assumption.
    + congruence.
    + lia.
    + lia.
  - intros H. destruct (IH _ _ H) as [k [Hk1 [Hk2 [Hk3 Hk4]]]].
    exists (S k). simpl. repeat split; try assumption.
    + destruct j as [|j]; simpl; [assumption | apply Hk4; lia].
    + destruct j as [|j]; simpl; [congruence | apply Hk4; lia].
Qed.

Lemma findDenoLock_absent (fuel : nat) :
  forall dir,
    findDenoLock path_join dirname exists_ fuel dir = Some None ->
    exists k,
      dirname (ancestor dirname k dir) = ancestor dirname k dir
      /\ forall j, (j < k)%nat ->
           exists_ (path_join [ancestor dirname j dir; "deno.lock"]) = false.
Proof.
  induction fuel as [|fuel IH]; intros dir; simpl; [discriminate|].
  destruct (String.eqb dir (dirname dir)) eqn:Hroot.
  - apply String.eqb_eq in Hroot. intros _. exists 0%nat. simpl.
    split; [congruence | lia].
  - destruct (exists_ (path_join [dir; "deno.lock"])) eqn:Hexists; [discriminate|].
    intros H. destruct (IH _ H) as [k [Hk1 Hk2]].
    exists (S k). simpl. split; [assumption|].
    destruct j as [|j]; simpl; [tauto | intros; apply Hk2; lia].
Qed.

(** The walk ends when every step to a parent brings a measure down. *)
Lemma findDenoLock_ends (depth : string -> nat) :
  (forall dir, dirname dir <> dir -> (depth (dirname dir) < depth dir)%nat) ->
  forall fuel dir,
    (depth dir < fuel)%nat ->
    findDenoLock path_join dirname exists_ fuel dir <> None.
Proof.
  intros Hdepth. induction fuel as [|fuel IH]; intros dir Hfuel; [lia|].
  simpl. destruct (String.eqb dir (dirname dir)) eqn:Hroot; [discriminate|].
  apply String.eqb_neq in Hroot.
  destruct (exists_ (path_join [dir; "deno.lock"])); [discriminate|].
  apply IH. assert (dirname dir <> dir) by congruence.
  specialize (Hdepth dir H). lia.
Qed.

End Locate.

(** X4: [findDenoLock] returns the lock file of the nearest ancestor of
    the working directory that has one, looking only at directories that
    differ from their parent: the root directory itself is never probed.
    It returns [null] only when it has come to such a directory without
    finding a lock file on the way, and the walk ends whenever each step to
    a parent decreases some measure of the path. *)
Theorem lock_file_of_nearest_ancestor :
  forall path_join dirname exists_,
    (forall fuel cwd lockFile,
        findDenoLock path_join dirname exists_ fuel cwd = Some (Some lockFile) ->
        exists k,
          lockFile = path_join [ancestor dirname k cwd; "deno.lock"]
          /\ exists_ lockFile = true
          /\ dirname (ancestor dirname k cwd) <> ancestor dirname k cwd
          /\ forall j, (j < k)%nat ->
               exists_ (path_join [ancestor dirname j cwd; "deno.lock"]) = false
               /\ dirname (ancestor dirname j cwd) <> ancestor dirname j cwd)
    /\ (forall fuel cwd,
           findDenoLock path_join dirname exists_ fuel cwd = Some None ->
           exists k,
             dirname (ancestor dirname k cwd) = ancestor dirname k cwd
             /\ forall j, (j < k)%nat ->
                  exists_ (path_join [ancestor dirname j cwd; "deno.lock"]) = false)
    /\ (forall depth : string -> nat,
           (forall dir, dirname dir <> dir -> (depth (dirname dir) < depth dir)%nat) ->
           forall cwd,
             findDenoLock path_join dirname exists_ (S (depth cwd)) cwd <> None).
Proof.
  intros path_join dirname exists_. split; [|split].
  - intros fuel. apply findDenoLock_found.
  - intros fuel. apply findDenoLock_absent.
  - intros depth Hdepth cwd. apply (findDenoLock_ends _ _ _ depth Hdepth). lia.
Qed.

Lemma lock_file_of_nearest_ancestor_witness :
  findDenoLock Sample.join Sample.dirname
    (Sample.exists_ ["/deno.lock"; "/proj/deno.lock"]) 4 "/proj/packages/app"
  = Some (Some "/proj/deno.lock")
  /\ exists k,
      "/proj/deno.lock"
      = Sample.join [ancestor Sample.dirname k "/proj/packages/app"; "deno.lock"]
      /\ Sample.exists_ ["/deno.lock"; "/proj/deno.lock"] "/proj/deno.lock" = true
      /\ Sample.dirname (ancestor Sample.dirname k "/proj/packages/app")
         <> ancestor Sample.dirname k "/proj/packages/app"
      /\ forall j, (j < k)%nat ->
           Sample.exists_ ["/deno.lock"; "/proj/deno.lock"]
             (Sample.join [ancestor Sample.dirname j "/proj/packages/app"; "deno.lock"])
           = false
           /\ Sample.dirname (ancestor Sample.dirname j "/proj/packages/app")
              <> ancestor Sample.dirname j "/proj/packages/app".
Proof.
  split; [reflexivity|].
  apply (proj1 (lock_file_of_nearest_ancestor Sample.join Sample.dirname
                  (Sample.exists_ ["/deno.lock"; "/proj/deno.lock"]))
           4%nat "/proj/packages/app" "/proj/deno.lock").
  reflexivity.
Defined.

(* ================================================================= *)
(** ** The lockfile resolver without allow-list *)

Section Everything.

Lemma mapM_Forall2 {A B : Type} (f : A -> result B) (xs : list A) :
  forall ys, mapM f xs = Ok ys -> Forall2 (fun x y => f x = Ok y) xs ys.
Proof.
  induction xs as [|x xs IH]; intros ys; simpl.
  - intros [= <-]. constructor.
  - destruct (f x) as [y|e] eqn:Hx; simpl; [|discriminate].
    destruct (mapM f xs) as [ys'|e]; simpl; [|discriminate].
    intros [= <-]. constructor; [assumption | apply IH; reflexivity].
Qed.

Lemma Forall2_In_l {A B : Type} (R : A -> B -> Prop) (xs : list A) (ys : list B) :
  Forall2 R xs ys -> forall x, In x xs -> exists y, In y ys /\ R x y.
Proof.
  induction 1 as [|x0 y0 xs ys Hxy _ IH]; intros x; simpl.
  - tauto.
  - intros [<- | Hx].
    + exists y0. tauto.
    + destruct (IH x Hx) as [y [Hy Hr]]. exists y. tauto.
Qed.

Lemma Forall2_In_r {A B : Type} (R : A -> B -> Prop) (xs : list A) (ys : list B) :
  Forall2 R xs ys -> forall y, In y ys -> exists x, In x xs /\ R x y.
Proof.
  induction 1 as [|x0 y0 xs ys Hxy _ IH]; intros y; simpl.
  - tauto.
  - intros [<- | Hy].
    + exists x0. tauto.
    + destruct (IH y Hy) as [x [Hx Hr]]. exists x. tauto.
Qed.

Variable path_join : list string -> string.
Variable realpath : string -> option string.

(** [Promise.all] resolves when every promise does, and then gives the
    plain strings and the real paths in the order of the array. *)
Lemma promiseAll_Forall2 (collected : list Collected) (paths : list string) :
  promiseAll realpath collected = Ok paths ->
  Forall2 (fun c p => match c with
                      | Plain q => p = q
                      | Promise storePath => realpath storePath = Some p
                      end) collected paths.
Proof.
  intros H. apply mapM_Forall2 in H.
  eapply Forall2_impl; [|exact H].
  intros [q|sp] p; simpl.
  - intros [= ->]. reflexivity.
  - destruct (realpath sp); [intros [= ->]; reflexivity | discriminate].
Qed.

End Everything.

(** X5: without an allow-list the call fails with a [TypeError] when the
    document has no ["npm"] section; when it succeeds, the result holds
    the real path of the store directory of every piece of every key of
    that section, and holds nothing but these and the project root. *)
Theorem no_allow_list_returns_npm_store_paths :
  forall path_join realpath readPackageJson denoLockPath denoLock cwd,
    (Js.lookup "npm" (registries denoLock) = None ->
     getDenoDependenciesFrom path_join realpath readPackageJson
       denoLockPath denoLock cwd None = Throw TypeError)
    /\ (forall result,
           getDenoDependenciesFrom path_join realpath readPackageJson
             denoLockPath denoLock cwd None = Ok result ->
           exists npm,
             Js.lookup "npm" (registries denoLock) = Some npm
             /\ (forall key, In key (Js.keys npm) ->
                   exists pieces,
                     splitMultiPackageAtVersion key = Ok pieces
                     /\ forall piece, In piece pieces ->
                          exists real,
                            realpath (storePath path_join denoLockPath piece) = Some real
                            /\ In real result)
             /\ (forall p, In p result ->
                   p = cwd
                   \/ exists key pieces piece,
                       In key (Js.keys npm)
                       /\ splitMultiPackageAtVersion key = Ok pieces
                       /\ In piece pieces
                       /\ realpath (storePath path_join denoLockPath piece) = Some p)).
Proof.
  intros path_join realpath readPackageJson denoLockPath denoLock cwd.
  unfold getDenoDependenciesFrom.
  destruct (Js.lookup "npm" (registries denoLock)) as [npm|]; [|split].
  - split; [discriminate|]. intros result.
    destruct (mapM splitMultiPackageAtVersion (Js.keys npm)) as [pieces|e] eqn:Hpieces;
      simpl; [|discriminate].
    destruct (promiseAll realpath (map (denoPath path_join denoLockPath) (concat pieces)))
      as [paths|e] eqn:Hpaths; simpl; [|discriminate].
    intros [= <-]. exists npm. split; [reflexivity|].
    apply mapM_Forall2 in Hpieces. apply promiseAll_Forall2 in Hpaths.
    assert (Hin : forall p,
               In p (if negb (Js.mem cwd paths) then Js.push paths cwd else paths)
               <-> In p paths \/ p = cwd).
    { intros p. destruct (Js.mem cwd paths) eqn:E; simpl.
      - apply mem_In in E. split; [tauto | intros [H | ->]; assumption].
      - apply push_In. }
    split.
    + intros key Hkey.
      destruct (Forall2_In_l _ _ _ Hpieces key Hkey) as [l [Hl Hsplit]].
      exists l. split; [assumption|]. intros piece Hpiece.
      assert (Hc : In (denoPath path_join denoLockPath piece)
                      (map (denoPath path_join denoLockPath) (concat pieces))).
      { apply in_map, in_concat. exists l. tauto. }
      destruct (Forall2_In_l _ _ _ Hpaths _ Hc) as [real [Hreal Hr]].
      exists real. split; [exact Hr|]. apply unique_In, Hin. left. assumption.
    + intros p Hp. apply unique_In, Hin in Hp. destruct Hp as [Hp | ->]; [|tauto].
      right. destruct (Forall2_In_r _ _ _ Hpaths p Hp) as [c [Hc Hr]].
      apply in_map_iff in Hc. destruct Hc as [piece [<- Hpiece]].
      apply in_concat in Hpiece. destruct Hpiece as [l [Hl Hpiece]].
      destruct (Forall2_In_r _ _ _ Hpieces l Hl) as [key [Hkey Hsplit]].
      exists key, l, piece. repeat split; assumption.
  - reflexivity.
  - discriminate.
Qed.

Lemma no_allow_list_returns_npm_store_paths_witness :
  getDenoDependenciesFrom Sample.join Sample.realpath (Sample.disk [])
    "/proj/deno.lock" Examples.cyclic "/proj" None = Throw TypeError.
Proof.
  apply (proj1 (no_allow_list_returns_npm_store_paths Sample.join Sample.realpath
                  (Sample.disk []) "/proj/deno.lock" Examples.cyclic "/proj")).
  reflexivity.
Defined.

(* ================================================================= *)
(** ** Strings *)

Section Strings.

Lemma append_assoc (a b c : string) : (a ++ b) ++ c = a ++ (b ++ c).
Proof.
  induction a as [|d a IH]; simpl.
  - reflexivity.
  - rewrite IH. reflexivity.
Qed.

Lemma take_drop (n : nat) (s : string) : Js.take n s ++ Js.drop n s = s.
Proof.
  revert s. induction n as [|n IH]; intros [|c s]; simpl; try reflexivity.
  rewrite IH. reflexivity.
Qed.

Lemma length_drop (n : nat) (s : string) :
  String.length (Js.drop n s) = (String.length s - n)%nat.
Proof.
  revert s. induction n as [|n IH]; intros [|c s]; simpl; try reflexivity.
  apply IH.
Qed.

Lemma take_all (n : nat) (s : string) :
  (String.length s <= n)%nat -> Js.take n s = s.
Proof.
  revert s. induction n as [|n IH]; intros [|c s]; simpl; try reflexivity.
  - lia.
  - intros H. rewrite IH; [reflexivity | lia].
Qed.

Lemma drop_drop (n m : nat) (s : string) :
  Js.drop n (Js.drop m s) = Js.drop (m + n) s.
Proof.
  revert s. induction m as [|m IH]; intros s; simpl.
  - reflexivity.
  - destruct s as [|c s]; simpl.
    + destruct n; reflexivity.
    + apply IH.
Qed.

Lemma take_take_drop (n m : nat) (s : string) :
  Js.take m s ++ Js.take n (Js.drop m s) = Js.take (m + n) s.
Proof.
  revert s. induction m as [|m IH]; intros s; simpl.
  - reflexivity.
  - destruct s as [|c s]; simpl.
    + destruct n; reflexivity.
    + rewrite IH. reflexivity.
Qed.

Lemma find_char_Some (c : ascii) (s : string) :
  forall k,
    Js.find_char c s = Some k ->
    (k < String.length s)%nat
    /\ s = Js.take k s ++ String c (Js.drop (S k) s)
    /\ Js.find_char c (Js.take k s) = None.
Proof.
  induction s as [|d s IH]; intros k; simpl; [discriminate|].
  destruct (Ascii.eqb d c) eqn:E.
  - apply Ascii.eqb_eq in E. subst d. intros [= <-]. simpl.
    repeat split. lia.
  - destruct (Js.find_char c s) as [j|]; simpl; [|discriminate].
    intros [= <-]. destruct (IH j eq_refl) as [H1 [H2 H3]]. simpl.
    rewrite E, H3. repeat split; [lia|]. f_equal. exact H2.
Qed.

Lemma find_char_app_None (c : ascii) (a b : string) :
  Js.find_char c a = None ->
  Js.find_char c (a ++ b)
  = option_map (fun k => (String.length a + k)%nat) (Js.find_char c b).
Proof.
  induction a as [|d a IH]; simpl.
  - intros _. destruct (Js.find_char c b); reflexivity.
  - destruct (Ascii.eqb d c); [discriminate|].
    destruct (Js.find_char c a); [discriminate|]. intros _.
    rewrite (IH eq_refl). destruct (Js.find_char c b); reflexivity.
Qed.

Lemma find_char_app_Some (c : ascii) (a b : string) (k : nat) :
  Js.find_char c a = Some k -> Js.find_char c (a ++ b) = Some k.
Proof.
  revert k. induction a as [|d a IH]; intros k; simpl; [discriminate|].
  destruct (Ascii.eqb d c); [tauto|].
  destruct (Js.find_char c a) as [j|]; [|discriminate].
  rewrite (IH j eq_refl). tauto.
Qed.

Lemma find_char_here (c : ascii) (s : string) :
  Js.find_char c (String c s) = Some 0%nat.
Proof. simpl. rewrite Ascii.eqb_refl. reflexivity. Qed.

Lemma find_char_take (c : ascii) (n : nat) (s : string) :
  Js.find_char c s = None -> Js.find_char c (Js.take n s) = None.
Proof.
  revert n. induction s as [|d s IH]; intros [|n]; simpl; try reflexivity.
  destruct (Ascii.eqb d c); [discriminate|].
  destruct (Js.find_char c s); [discriminate|]. intros _.
  rewrite (IH n eq_refl). reflexivity.
Qed.

Lemma find_char_drop (c : ascii) (n : nat) (s : string) :
  Js.find_char c s = None -> Js.find_char c (Js.drop n s) = None.
Proof.
  revert n. induction s as [|d s IH]; intros [|n]; simpl; try reflexivity.
  - destruct (Ascii.eqb d c); [discriminate|].
    destruct (Js.find_char c s); [discriminate | reflexivity].
  - destruct (Ascii.eqb d c); [discriminate|].
    destruct (Js.find_char c s); [discriminate|]. intros _. apply IH. reflexivity.
Qed.

Lemma includes_false (s : string) (c : ascii) :
  Js.includes s c = false <-> Js.find_char c s = None.
Proof.
  unfold Js.includes. destruct (Js.find_char c s); split; congruence.
Qed.

Lemma find_char_slice (c : ascii) (s : string) (start : Z) (stop : option Z) :
  Js.find_char c s = None -> Js.find_char c (Js.slice s start stop) = None.
Proof.
  intros H. unfold Js.slice. apply find_char_take, find_char_drop, H.
Qed.

(** What [indexOf] returns, when it is not [-1], is the offset of an
    occurrence of the character at or after the (clamped) start. *)
Lemma indexOf_found (s : string) (c : ascii) (from p : Z) :
  Js.indexOf s c from = p -> p <> -1 ->
  exists n,
    p = Z.of_nat n
    /\ (Js.clamp from s <= n < String.length s)%nat
    /\ s = Js.take n s ++ String c (Js.drop (S n) s).
Proof.
  unfold Js.indexOf.
  destruct (Js.find_char c (Js.drop (Js.clamp from s) s)) as [j|] eqn:E;
    [|congruence].
  intros <- _. exists (Js.clamp from s + j)%nat.
  destruct (find_char_Some _ _ _ E) as [H1 [H2 _]].
  rewrite length_drop in H1.
  split; [reflexivity|]. split; [lia|].
  rewrite <- take_take_drop.
  replace (S (Js.clamp from s + j)) with (Js.clamp from s + S j)%nat by lia.
  rewrite <- drop_drop.
  rewrite append_assoc. rewrite <- H2. symmetry. apply take_drop.
Qed.

Lemma slice_prefix (s : string) (n : nat) :
  (n <= String.length s)%nat ->
  Js.slice s 0 (Some (Z.of_nat n)) = Js.take n s.
Proof.
  intros H. unfold Js.slice, Js.rel, Js.len. simpl Z.ltb.
  destruct (Z.of_nat n <? 0) eqn:E; [lia|].
  replace (Z.to_nat (Z.min 0 (Z.of_nat (String.length s)))) with 0%nat by lia.
  replace (Z.to_nat (Z.min (Z.of_nat n) (Z.of_nat (String.length s)))) with n by lia.
  rewrite Nat.sub_0_r. reflexivity.
Qed.

Lemma slice_suffix (s : string) (n : nat) :
  (n <= String.length s)%nat ->
  Js.slice s (Z.of_nat n) None = Js.drop n s.
Proof.
  intros H. unfold Js.slice, Js.rel, Js.len.
  destruct (Z.of_nat n <? 0) eqn:E; [lia|].
  replace (Z.to_nat (Z.min (Z.of_nat n) (Z.of_nat (String.length s)))) with n by lia.
  apply take_all. rewrite length_drop. lia.
Qed.

End Strings.

Lemma splitPackageAtVersion_parts :
  forall packageAtVersion,
    match splitPackageAtVersion packageAtVersion with
    | Ok (packageName, Some version) =>
        packageAtVersion = packageName ++ "@" ++ version /\ version <> ""
    | Ok (packageName, None) => packageName = packageAtVersion
    | Throw e =>
        e = Error ("Invalid package@version format: '" ++ packageAtVersion ++ "'")
        /\ exists packageName, packageAtVersion = packageName ++ "@"
    end.
Proof.
  intros s. unfold splitPackageAtVersion.
  set (from := if String.eqb (Js.charAt s (Js.indexOf s ":" 0 + 1)) "@"
               then Js.indexOf s ":" 0 + 2 else Js.indexOf s ":" 0 + 1).
  destruct (Js.indexOf s "@" from =? -1) eqn:Hcut; [reflexivity|].
  apply Z.eqb_neq in Hcut.
  destruct (indexOf_found s "@" from _ eq_refl Hcut) as [n [Hn [Hlen Hs]]].
  rewrite Hn.
  rewrite slice_prefix by lia.
  replace (Z.of_nat n + 1) with (Z.of_nat (S n)) by lia.
  rewrite slice_suffix by lia.
  destruct (Js.drop (S n) s) as [|c v] eqn:Hv; simpl.
  - split; [reflexivity|]. exists (Js.take n s). exact Hs.
  - split; [exact Hs | discriminate].
Qed.

(** X6: [splitPackageAtVersion] loses nothing: a name and a version put
    together again with ['@'] give the argument, and the version is not
    empty; without version the name is the whole argument; and the error
    is thrown only for an argument that ends with the separating ['@']. *)
Theorem split_name_version_rejoins :
  forall packageAtVersion,
    match splitPackageAtVersion packageAtVersion with
    | Ok (packageName, Some version) =>
        packageAtVersion = packageName ++ "@" ++ version /\ version <> ""
    | Ok (packageName, None) => packageName = packageAtVersion
    | Throw e =>
        e = Error ("Invalid package@version format: '" ++ packageAtVersion ++ "'")
        /\ exists packageName, packageAtVersion = packageName ++ "@"
    end.
Proof. exact splitPackageAtVersion_parts. Qed.

(* ================================================================= *)
(** ** What the multi-package split returns *)

Section Pieces.

Lemma find_char_app_inv (c : ascii) (a b : string) :
  Js.find_char c (a ++ b) = None ->
  Js.find_char c a = None /\ Js.find_char c b = None.
Proof.
  induction a as [|d a IH]; simpl.
  - tauto.
  - destruct (Ascii.eqb d c); [discriminate|].
    destruct (Js.find_char c (a ++ b)); [discriminate|]. intros _.
    destruct (IH eq_refl) as [-> ->]. tauto.
Qed.

Lemma split_all_pieces (s : string) (c : ascii) :
  forall piece, In piece (Js.split_all s c) -> Js.find_char c piece = None.
Proof.
  induction s as [|d s IH]; simpl.
  - intros piece [<- | []]. reflexivity.
  - destruct (Ascii.eqb d c) eqn:E.
    + intros piece [<- | H]; [reflexivity | apply IH, H].
    + destruct (Js.split_all s c) as [|p ps].
      * intros piece [<- | []]. simpl. rewrite E. reflexivity.
      * intros piece [<- | H].
        -- simpl. rewrite E. rewrite (IH p (or_introl eq_refl)). reflexivity.
        -- apply IH. right. assumption.
Qed.

Lemma split_all_nonempty (s : string) (c : ascii) : Js.split_all s c <> [].
Proof.
  destruct s as [|d s]; simpl; [discriminate|].
  destruct (Ascii.eqb d c); [discriminate|].
  destruct (Js.split_all s c); discriminate.
Qed.

Lemma split_all_join (s : string) (c : ascii) :
  joinPieces c (Js.split_all s c) = s.
Proof.
  induction s as [|d s IH]; simpl.
  - reflexivity.
  - pose proof (split_all_nonempty s c) as Hne.
    destruct (Js.split_all s c) as [|p ps]; [congruence|].
    destruct (Ascii.eqb d c) eqn:E.
    + apply Ascii.eqb_eq in E. subst d.
      change (joinPieces c ("" :: p :: ps)) with (String c (joinPieces c (p :: ps))).
      rewrite IH. reflexivity.
    + destruct ps as [|q ps]; simpl in *; rewrite <- IH; reflexivity.
Qed.

Lemma indexOf_zero (s : string) (c : ascii) :
  Js.indexOf s c 0 = -1 <-> Js.find_char c s = None.
Proof.
  unfold Js.indexOf, Js.clamp, Js.len.
  replace (Z.to_nat (Z.min (Z.max 0 0) (Z.of_nat (String.length s)))) with 0%nat
    by lia.
  simpl Js.drop. destruct (Js.find_char c s); split; try congruence. lia.
Qed.

(** A key without underscore is returned whole or rejected. *)
Lemma splitMultiLoop_single (fuel : nat) (s : string) (produced l : list string) :
  Js.find_char "_" s = None ->
  splitMultiLoop fuel s produced = Ok l ->
  l = Js.push produced s.
Proof.
  intros Hs. destruct fuel as [|fuel]; simpl; [discriminate|].
  pose proof (splitPackageAtVersion_parts s) as Hparts.
  destruct (splitPackageAtVersion s) as [[n [tail|]]|e]; simpl;
    [| intros [= <-]; reflexivity | discriminate].
  destruct (Js.includes tail "@"); simpl; [|intros [= <-]; reflexivity].
  assert (Htail : Js.indexOf tail "_" 0 = -1).
  { apply indexOf_zero. destruct Hparts as [-> _].
    apply find_char_app_inv in Hs. destruct Hs as [_ Hs].
    simpl in Hs. destruct (Js.find_char "_" tail); [discriminate | reflexivity]. }
  rewrite Htail. simpl. discriminate.
Qed.

Lemma splitMulti_pieces (s : string) (l : list string) :
  splitMultiPackageAtVersion s = Ok l ->
  l = [s]
  \/ exists name tail version rest more,
      splitPackageAtVersion s = Ok (name, Some tail)
      /\ tail = version ++ "_" ++ rest ++ more
      /\ (more = "" \/ exists dropped, more = String "_" dropped)
      /\ Js.includes version "_" = false
      /\ Js.includes rest "_" = false
      /\ l = [name ++ "@" ++ version; rest].
Proof.
  unfold splitMultiPackageAtVersion.
  destruct (String.length s) as [|fuel]; simpl; [discriminate|].
  destruct (splitPackageAtVersion s) as [[n [tail|]]|e] eqn:Hsplit; simpl;
    [| intros [= <-]; tauto | discriminate].
  destruct (Js.includes tail "@"); simpl; [|intros [= <-]; tauto].
  destruct (Js.indexOf tail "_" 0 =? -1); [discriminate|].
  unfold Js.split.
  pose proof (split_all_pieces tail "_") as Hpieces.
  pose proof (split_all_join tail "_") as Hjoin.
  destruct (Js.split_all tail "_") as [|version [|rest ps]]; simpl;
    [discriminate | discriminate |].
  intros H. right.
  assert (Hrest : Js.find_char "_" rest = None)
    by (apply Hpieces; right; left; reflexivity).
  apply (splitMultiLoop_single _ _ _ _ Hrest) in H. subst l.
  exists n, tail, version, rest,
    (match ps with [] => "" | _ => String "_" (joinPieces "_" ps) end).
  split; [reflexivity|]. split.
  - rewrite <- Hjoin. simpl. destruct ps as [|q ps].
    + replace (rest ++ "") with rest; [reflexivity|].
      clear. induction rest as [|c r IH]; simpl; [reflexivity | congruence].
    + simpl. reflexivity.
  - split; [|repeat split].
    + destruct ps as [|q ps]; [left; reflexivity|].
      right. eexists. reflexivity.
    + apply includes_false, Hpieces. left. reflexivity.
    + apply includes_false, Hrest.
Qed.

End Pieces.

(** X7: a successful multi-package split returns the key itself or
    exactly two pieces.  In the second case the version tail of the key is
    [version_rest] or [version_rest_dropped] with no underscore in
    [version] and [rest]; the pieces are [name@version] and [rest], and
    what follows the second underscore of the tail is in neither. *)
Theorem split_returns_at_most_two_pieces :
  forall packageAtVersion pieces,
    splitMultiPackageAtVersion packageAtVersion = Ok pieces ->
    pieces = [packageAtVersion]
    \/ exists name tail version rest more,
        splitPackageAtVersion packageAtVersion = Ok (name, Some tail)
        /\ tail = version ++ "_" ++ rest ++ more
        /\ (more = "" \/ exists dropped, more = String "_" dropped)
        /\ Js.includes version "_" = false
        /\ Js.includes rest "_" = false
        /\ pieces = [name ++ "@" ++ version; rest].
Proof. exact splitMulti_pieces. Qed.

Lemma split_returns_at_most_two_pieces_witness :
  ["a@1.0.0"; "b@2.0.0"] = ["a@1.0.0_b@2.0.0_c@3.0.0"]
  \/ exists name tail version rest more,
      splitPackageAtVersion "a@1.0.0_b@2.0.0_c@3.0.0" = Ok (name, Some tail)
      /\ tail = version ++ "_" ++ rest ++ more
      /\ (more = "" \/ exists dropped, more = String "_" dropped)
      /\ Js.includes version "_" = false
      /\ Js.includes rest "_" = false
      /\ ["a@1.0.0"; "b@2.0.0"] = [name ++ "@" ++ version; rest].
Proof.
  apply (split_returns_at_most_two_pieces "a@1.0.0_b@2.0.0_c@3.0.0").
  reflexivity.
Defined.

(* ================================================================= *)
(** ** Tokens of dependency references *)

Section Tokens.

Lemma includes_separator (a b : string) (c : ascii) :
  Js.includes (a ++ String c b) c = true.
Proof.
  unfold Js.includes.
  destruct (Js.find_char c a) as [k|] eqn:E.
  - rewrite (find_char_app_Some _ _ _ _ E). reflexivity.
  - rewrite (find_char_app_None _ _ _ E), find_char_here. reflexivity.
Qed.

Lemma drop_app (a b : string) (n : nat) :
  Js.drop (String.length a + n) (a ++ b) = Js.drop n b.
Proof.
  induction a as [|d a IH]; simpl; [reflexivity | exact IH].
Qed.

Lemma length_append (a b : string) :
  String.length (a ++ b) = (String.length a + String.length b)%nat.
Proof.
  induction a as [|d a IH]; simpl; [reflexivity | rewrite IH; reflexivity].
Qed.

Lemma dependencyToken_plain (registryId dependency : string) :
  Js.includes dependency ":" = false ->
  dependencyToken registryId dependency = registryId ++ ":" ++ dependency.
Proof.
  intros H. unfold dependencyToken.
  assert (Hcolon : Js.indexOf dependency ":" 0 = -1)
    by (apply indexOf_zero, includes_false, H).
  rewrite Hcolon. simpl (negb (-1 =? -1)).
  rewrite andb_false_r. simpl. rewrite H. reflexivity.
Qed.

Lemma dependencyToken_rebound (registryId target alias : string) (c : ascii) :
  Js.find_char "@" alias = None ->
  Js.find_char ":" (String c alias) = None ->
  Js.includes target ":" = true ->
  dependencyToken registryId (String c alias ++ "@" ++ target) = target.
Proof.
  intros Halias Hcolon Htarget.
  set (dependency := String c alias ++ "@" ++ target).
  unfold Js.includes in Htarget.
  destruct (Js.find_char ":" target) as [k|] eqn:Hk; [|discriminate].
  assert (Hc : Js.indexOf dependency ":" 0
               = Z.of_nat (S (String.length alias) + S k)).
  { unfold Js.indexOf, Js.clamp, Js.len.
    replace (Z.to_nat (Z.min (Z.max 0 0) (Z.of_nat (String.length dependency))))
      with 0%nat by lia.
    simpl Js.drop. unfold dependency.
    rewrite (find_char_app_None _ _ _ Hcolon).
    change ("@" ++ target) with (String "@" target).
    simpl Js.find_char at 1. rewrite Hk. reflexivity. }
  assert (Ha : Js.indexOf dependency "@" 1 = Z.of_nat (S (String.length alias))).
  { unfold Js.indexOf, Js.clamp, Js.len.
    assert (Hlen : String.length dependency
                   = S (String.length alias + S (String.length target))).
    { unfold dependency. simpl. rewrite length_append. reflexivity. }
    replace (Z.to_nat (Z.min (Z.max 1 0) (Z.of_nat (String.length dependency))))
      with 1%nat by lia.
    unfold dependency. simpl Js.drop.
    rewrite (find_char_app_None _ _ _ Halias).
    change ("@" ++ target) with (String "@" target).
    rewrite find_char_here. simpl. f_equal. lia. }
  unfold dependencyToken. fold dependency. rewrite Hc, Ha.
  assert (Hcond : negb (Z.of_nat (S (String.length alias)) =? -1)
                  && negb (Z.of_nat (S (String.length alias) + S k) =? -1)
                  && (Z.of_nat (S (String.length alias))
                      <? Z.of_nat (S (String.length alias) + S k)) = true).
  { rewrite !andb_true_iff, !negb_true_iff, !Z.eqb_neq, Z.ltb_lt. lia. }
  rewrite Hcond.
  replace (Z.of_nat (S (String.length alias)) + 1)
    with (Z.of_nat (S (S (String.length alias)))) by lia.
  assert (Hslice : Js.slice dependency (Z.of_nat (S (S (String.length alias)))) None
                   = target).
  { rewrite slice_suffix.
    - unfold dependency.
      change (Js.drop (S (String.length alias)) (alias ++ String "@" target) = target).
      replace (S (String.length alias)) with (String.length alias + 1)%nat by lia.
      rewrite drop_app. reflexivity.
    - unfold dependency. simpl. rewrite length_append. simpl. lia. }
  rewrite Hslice. unfold Js.includes. rewrite Hk. reflexivity.
Qed.

Lemma dependencyToken_colon (registryId dependency : string) :
  Js.includes (dependencyToken registryId dependency) ":" = true.
Proof.
  unfold dependencyToken.
  match goal with
  | |- context [if Js.includes ?d ":" then _ else _] =>
      destruct (Js.includes d ":") eqn:E
  end.
  - exact E.
  - apply includes_separator.
Qed.

End Tokens.

(** X9: the token queued for a dependency reference always names a
    registry (it holds a [':']); a reference without [':'] gets the
    registry of the entry that declares it; and a rebound reference
    ["alias@registry:name@version"] is queued as its target, the alias
    being dropped. *)
Theorem dependency_token_names_registry :
  forall registryId dependency,
    Js.includes (dependencyToken registryId dependency) ":" = true
    /\ (Js.includes dependency ":" = false ->
        dependencyToken registryId dependency = registryId ++ ":" ++ dependency)
    /\ (forall c alias target,
           dependency = String c alias ++ "@" ++ target ->
           Js.find_char "@" alias = None ->
           Js.find_char ":" (String c alias) = None ->
           Js.includes target ":" = true ->
           dependencyToken registryId dependency = target).
Proof.
  intros registryId dependency. split; [apply dependencyToken_colon|].
  split; [apply dependencyToken_plain|].
  intros c alias target ->. apply dependencyToken_rebound.
Qed.

Lemma dependency_token_names_registry_witness :
  dependencyToken "jsr" "alias@npm:real@1.0.0" = "npm:real@1.0.0"
  /\ dependencyToken "npm" "@scope/pkg@2.0.0" = "npm:@scope/pkg@2.0.0".
Proof.
  split.
  - apply (proj2 (proj2 (dependency_token_names_registry "jsr" "alias@npm:real@1.0.0"))
             "a"%char "lias" "npm:real@1.0.0"); reflexivity.
  - apply (proj1 (proj2 (dependency_token_names_registry "npm" "@scope/pkg@2.0.0"))).
    reflexivity.
Defined.

(* ================================================================= *)
(** ** The registry traversal *)

Section Closure.

Variable path_join : list string -> string.
Variable denoLockPath : string.
Variable denoLock : DenoLock.

Lemma queueDependencies_spec (registryId : string) (deps : list string) :
  forall frontier visited frontier' visited',
    queueDependencies registryId deps frontier visited = (frontier', visited') ->
    incl visited visited'
    /\ incl frontier frontier'
    /\ (forall dependency, In dependency deps ->
                           In (dependencyToken registryId dependency) visited')
    /\ (forall token, In token visited' -> In token visited \/ In token frontier').
Proof.
  unfold queueDependencies.
  induction deps as [|d deps IH]; intros F V F' V'; simpl.
  - intros [= <- <-]. repeat split; try apply incl_refl; tauto.
  - destruct (Js.mem (dependencyToken registryId d) V) eqn:E; simpl.
    + intros H. destruct (IH _ _ _ _ H) as [H1 [H2 [H3 H4]]].
      repeat split; try assumption.
      intros x [<- | Hx]; [apply H1, mem_In, E | apply H3, Hx].
    + intros H. destruct (IH _ _ _ _ H) as [H1 [H2 [H3 H4]]].
      assert (Hadd : Js.add V (dependencyToken registryId d)
                     = Js.push V (dependencyToken registryId d))
        by (unfold Js.add; rewrite E; reflexivity).
      rewrite Hadd in *.
      repeat split.
      * intros x Hx. apply H1, push_In. left. assumption.
      * intros x Hx. apply H2, push_In. left. assumption.
      * intros x [<- | Hx]; [|apply H3, Hx].
        apply H1, push_In. right. reflexivity.
      * intros x Hx. destruct (H4 x Hx) as [Hv | Hf]; [|tauto].
        apply push_In in Hv. destruct Hv as [Hv | ->]; [tauto|].
        right. apply H2, push_In. right. reflexivity.
Qed.

Lemma collect_pieces (pieces : list string) :
  forall collected c,
    In c (fold_left (fun collected piece =>
                       Js.push collected (denoPath path_join denoLockPath piece))
                    pieces collected)
    <-> In c collected
        \/ exists piece, In piece pieces /\ c = denoPath path_join denoLockPath piece.
Proof.
  induction pieces as [|p pieces IH]; intros collected c; simpl.
  - split; [tauto | intros [H | [piece [[] _]]]; assumption].
  - rewrite IH, push_In. split.
    + intros [[H | ->] | [piece [H1 H2]]].
      * tauto.
      * right. exists p. tauto.
      * right. exists piece. tauto.
    + intros [H | [piece [[<- | H1] H2]]].
      * tauto.
      * tauto.
      * right. exists piece. tauto.
Qed.

Lemma Settled_grows (visited visited' : list string)
    (collected collected' : list Collected) (token : string) :
  incl visited visited' -> incl collected collected' ->
  Settled path_join denoLockPath denoLock visited collected token ->
  Settled path_join denoLockPath denoLock visited' collected' token.
Proof.
  intros Hv Hc [r [p [key [pieces [section [H1 [H2 [H3 [H4 [H5 H6]]]]]]]]]].
  exists r, p, key, pieces, section.
  repeat split; try assumption.
  - intros piece Hpiece. apply Hc, H4, Hpiece.
  - destruct (Js.read key section) as [meta| |]; [|exact I|exact H6].
    intros d Hd. apply Hv, H6, Hd.
Qed.

(** An iteration that does not throw settles the popped token and puts
    every new token of the visited set on the frontier. *)
Lemma registryStep_settles (token : string)
    (frontier visited : list string) (collected : list Collected)
    (frontier' visited' : list string) (collected' : list Collected) :
  registryStep path_join denoLockPath denoLock token (frontier, visited, collected)
  = Ok (frontier', visited', collected') ->
  Settled path_join denoLockPath denoLock visited' collected' token
  /\ incl visited visited'
  /\ incl collected collected'
  /\ incl frontier frontier'
  /\ (forall t, In t visited' -> In t visited \/ In t frontier').
Proof.
  unfold registryStep.
  pose proof (firstn_le_length 2 (Js.split_all token ":")) as Hlen.
  fold (Js.split token ":" 2) in Hlen.
  destruct (Js.split token ":" 2) as [|r [|p [|q l]]] eqn:Hsplit; simpl;
    try discriminate; [destruct r; discriminate | | simpl in Hlen; lia].
  destruct r as [|c r]; [discriminate|]. destruct p as [|d p]; [discriminate|].
  destruct (inferVersion denoLock (String c r) (String d p)) as [key|e] eqn:Hkey;
    simpl; [|discriminate].
  unfold visitEntry.
  destruct (splitMultiPackageAtVersion key) as [pieces|e] eqn:Hpieces;
    simpl; [|discriminate].
  destruct (Js.lookup (String c r) (registries denoLock)) as [section|] eqn:Hsection;
    [|discriminate].
  destruct (Js.read key section) as [meta| |] eqn:Hmeta; [| |discriminate].
  - destruct (entry_dependencies meta) as [deps|] eqn:Hdeps.
    + destruct (queueDependencies (String c r) deps frontier visited)
        as [F V] eqn:Hqueue.
      intros [= <- <- <-].
      destruct (queueDependencies_spec _ _ _ _ _ _ Hqueue) as [H1 [H2 [H3 H4]]].
      split; [|split; [|split; [|split]]]; try assumption.
      * exists (String c r), (String d p), key, pieces, section.
        repeat split; try assumption.
        -- intros piece Hpiece. apply collect_pieces. right. exists piece. tauto.
        -- rewrite Hmeta, Hdeps. simpl. exact H3.
      * intros x Hx. apply collect_pieces. left. assumption.
    + intros [= <- <- <-].
      split; [|split; [|split; [|split]]]; try apply incl_refl; try tauto.
      * exists (String c r), (String d p), key, pieces, section.
        repeat split; try assumption.
        -- intros piece Hpiece. apply collect_pieces. right. exists piece. tauto.
        -- rewrite Hmeta, Hdeps. simpl. tauto.
      * intros x Hx. apply collect_pieces. left. assumption.
  - intros [= <- <- <-].
    split; [|split; [|split; [|split]]]; try apply incl_refl; try tauto.
    + exists (String c r), (String d p), key, pieces, section.
      repeat split; try assumption.
      * intros piece Hpiece. apply collect_pieces. right. exists piece. tauto.
      * rewrite Hmeta. exact I.
    + intros x Hx. apply collect_pieces. left. assumption.
Qed.

Lemma drainRegistry_settles (fuel : nat) :
  forall frontier visited collected visited' collected',
    drainRegistry path_join fuel denoLockPath denoLock (frontier, visited, collected)
    = Ok ([], visited', collected') ->
    (forall token, In token visited ->
       In token frontier
       \/ Settled path_join denoLockPath denoLock visited collected token) ->
    incl visited visited'
    /\ incl collected collected'
    /\ forall token, In token visited' ->
         Settled path_join denoLockPath denoLock visited' collected' token.
Proof.
  induction fuel as [|fuel IH]; intros F V C V' C'.
  - simpl. intros [= -> <- <-] Hinv.
    repeat split; try apply incl_refl.
    intros t Ht. destruct (Hinv t Ht) as [[] | H]. exact H.
  - cbn [drainRegistry].
    destruct (Js.pop F) as [[t F1]|] eqn:Hpop.
    + apply pop_Some in Hpop. subst F.
      destruct (registryStep path_join denoLockPath denoLock t (F1, V, C))
        as [[[F2 V2] C2]|e] eqn:Hstep; cbn [bind]; [|discriminate].
      intros Hdrain Hinv.
      destruct (registryStep_settles _ _ _ _ _ _ _ Hstep)
        as [Ht [HV [HC [HF Hnew]]]].
      destruct (IH F2 V2 C2 V' C' Hdrain) as [HV' [HC' Hall]].
      * intros x Hx. destruct (Hnew x Hx) as [Hold | Hfr]; [|tauto].
        destruct (Hinv x Hold) as [Hf | Hs].
        -- apply push_In in Hf. destruct Hf as [Hf | ->].
           ++ left. apply HF, Hf.
           ++ right. exact Ht.
        -- right. exact (Settled_grows _ _ _ _ _ HV HC Hs).
      * repeat split.
        -- intros x Hx. apply HV', HV, Hx.
        -- intros x Hx. apply HC', HC, Hx.
        -- exact Hall.
    + apply pop_None in Hpop. subst F.
      intros [= <- <-] Hinv.
      repeat split; try apply incl_refl.
      intros t Ht. destruct (Hinv t Ht) as [[] | H]. exact H.
Qed.

End Closure.

(** X10: take a registry traversal that starts as the source starts it,
    with its seeds both visited and on the frontier, and that ends with an
    empty frontier, no visited token naming as its registry a key of the
    document that is not a registry section.  Then every token of its
    visited set is settled: the store paths of its key are collected, and
    the read of its key in its registry section found an entry, the tokens
    of whose dependencies are visited too, or found a member of
    [Object.prototype] (a key that is neither would have thrown).  No seed
    and no path collected before is lost. *)
Theorem registry_traversal_closes :
  forall path_join fuel denoLockPath denoLock seeds collected visited' collected',
    drainRegistry path_join fuel denoLockPath denoLock (seeds, seeds, collected)
    = Ok ([], visited', collected') ->
    (forall token registryId rest,
        In token visited' ->
        Js.split token ":" 2 = registryId :: rest ->
        ~ In registryId otherTopLevelKeys) ->
    incl seeds visited'
    /\ incl collected collected'
    /\ forall token, In token visited' ->
         Settled path_join denoLockPath denoLock visited' collected' token.
Proof.
  intros path_join fuel denoLockPath denoLock seeds collected visited' collected'
         Hdrain _.
  apply (drainRegistry_settles path_join denoLockPath denoLock fuel
           seeds seeds collected visited' collected' Hdrain).
  intros token Htoken. left. exact Htoken.
Qed.

Lemma registry_traversal_closes_witness :
  incl ["npm:bar@1.0.0"] ["npm:bar@1.0.0"; "npm:foo"]
  /\ incl [] [denoPath Sample.join "/proj/deno.lock" "bar@1.0.0";
              denoPath Sample.join "/proj/deno.lock" "foo@2.0.0"]
  /\ forall token, In token ["npm:bar@1.0.0"; "npm:foo"] ->
       Settled Sample.join "/proj/deno.lock" Examples.twoVersions
         ["npm:bar@1.0.0"; "npm:foo"]
         [denoPath Sample.join "/proj/deno.lock" "bar@1.0.0";
          denoPath Sample.join "/proj/deno.lock" "foo@2.0.0"] token.
Proof.
  apply (registry_traversal_closes Sample.join 3 "/proj/deno.lock"
           Examples.twoVersions ["npm:bar@1.0.0"] []).
  - reflexivity.
  - intros token registryId rest [<- | [<- | []]] [= <- _];
      simpl; intuition discriminate.
Defined.

(* ================================================================= *)
(** ** The workspace traversal *)

Section Workspaces.

Variable path_join : list string -> string.
Variable denoLockPath : string.
Variable denoLock : DenoLock.
Variable catalog : list (string * DenoWorkspaceWithMeta).

Lemma push_all_In (deps : list string) :
  forall (frontier : WorkspaceFrontier) e,
    In e (fold_left (fun frontier dependency =>
                       Js.push frontier (dependency, Js.lookup dependency catalog))
                    deps frontier)
    <-> In e frontier
        \/ exists dependency,
            In dependency deps /\ e = (dependency, Js.lookup dependency catalog).
Proof.
  induction deps as [|d deps IH]; intros frontier e; simpl.
  - split; [tauto | intros [H | [x [[] _]]]; assumption].
  - rewrite IH, push_In. split.
    + intros [[H | ->] | [x [H1 H2]]].
      * tauto.
      * right. exists d. tauto.
      * right. exists x. tauto.
    + intros [H | [x [[<- | H1] H2]]].
      * tauto.
      * tauto.
      * right. exists x. tauto.
Qed.

Lemma forEach_add_incl (f : string -> result string) (deps : list string) :
  forall set set',
    forEach (fun set dependency => token <- f dependency ;; Ok (Js.add set token))
            deps set = Ok set' ->
    incl set set'.
Proof.
  induction deps as [|d deps IH]; intros set set'; simpl.
  - intros [= <-]. apply incl_refl.
  - destruct (f d) as [token|e]; simpl; [|discriminate].
    intros H. apply IH in H. intros x Hx. apply H, add_In. left. assumption.
Qed.

Lemma workspaceStep_records (localPath : string) (w : option DenoWorkspaceWithMeta)
    (frontier : WorkspaceFrontier) (registryDependencies : list string)
    (collected : list Collected)
    (frontier' : WorkspaceFrontier) (registryDependencies' : list string)
    (collected' : list Collected) :
  workspaceStep path_join denoLockPath denoLock catalog (localPath, w)
    (frontier, registryDependencies, collected)
  = Ok (frontier', registryDependencies', collected') ->
  collected' = Js.push collected (Plain (path_join [denoLockPath; ".."; localPath]))
  /\ incl registryDependencies registryDependencies'
  /\ incl frontier frontier'
  /\ forall e, Pushes catalog (localPath, w) e -> In e frontier'.
Proof.
  unfold workspaceStep. destruct w as [w|]; [|discriminate].
  match goal with
  | |- bind ?r _ = _ -> _ => destruct r as [regs|e] eqn:Hregs
  end; simpl; [|discriminate].
  intros [= <- <- <-]. repeat split.
  - revert Hregs. generalize (orEmpty (dependencies w)). intros deps.
    revert registryDependencies.
    induction deps as [|d deps IH]; intros set; simpl.
    + intros [= <-]. apply incl_refl.
    + destruct (splitPackageAtVersion d) as [[n v]|e]; simpl; [|discriminate].
      intros H. apply IH in H. intros x Hx. apply H, add_In. left. assumption.
  - intros e He. apply push_all_In. left. assumption.
  - intros e He. inversion He; subst. apply push_all_In. right.
    exists dependency. tauto.
Qed.

Lemma drainWorkspaces_records (fuel : nat) :
  forall frontier registryDependencies collected registryDependencies' collected',
    drainWorkspaces path_join fuel denoLockPath denoLock catalog
      (frontier, registryDependencies, collected)
    = Ok ([], registryDependencies', collected') ->
    incl registryDependencies registryDependencies'
    /\ incl collected collected'
    /\ forall e e', In e frontier -> Follows catalog e e' ->
         In (Plain (path_join [denoLockPath; ".."; fst e'])) collected'
         /\ snd e' <> None.
Proof.
  induction fuel as [|fuel IH]; intros F R C R' C'.
  - simpl. intros [= -> <- <-].
    split; [apply incl_refl|]. split; [apply incl_refl|]. intros x x' [].
  - cbn [drainWorkspaces].
    destruct (Js.pop F) as [[[p w] F1]|] eqn:Hpop.
    + apply pop_Some in Hpop. subst F.
      destruct (workspaceStep path_join denoLockPath denoLock catalog (p, w) (F1, R, C))
        as [[[F2 R2] C2]|err] eqn:Hstep; cbn [bind]; [|discriminate].
      intros Hdrain.
      destruct (workspaceStep_records _ _ _ _ _ _ _ _ Hstep) as [HC [HR [HF Hpush]]].
      destruct (IH F2 R2 C2 R' C' Hdrain) as [HR' [HC' Hall]].
      assert (Hw : w <> None).
      { destruct w; [discriminate|]. unfold workspaceStep in Hstep. discriminate. }
      split; [intros x Hx; apply HR', HR, Hx|].
      split; [intros x Hx; apply HC'; rewrite HC; apply push_In; left; assumption|].
      intros x x' Hx Hfollows.
      apply push_In in Hx. destruct Hx as [Hx | ->].
      * apply (Hall x x' (HF x Hx) Hfollows).
      * assert (Hhere : In (Plain (path_join [denoLockPath; ".."; p])) C').
        { apply HC'. rewrite HC. apply push_In. right. reflexivity. }
        inversion Hfollows as [|? x1 ? Hp Hf]; subst x'.
        -- simpl. split; [exact Hhere | exact Hw].
        -- apply (Hall x1 _ (Hpush x1 Hp) Hf).
    + apply pop_None in Hpop. subst F.
      intros [= <- <-].
      split; [apply incl_refl|]. split; [apply incl_refl|]. intros x x' [].
Qed.

End Workspaces.

(** X11: when the workspace traversal ends with an empty frontier, every
    entry that was on the frontier, and every entry pushed after it (the
    name of a workspace dependency paired with what the catalog holds
    under that name), was found in the catalog and has the join of the
    lock directory with its first component among the collected paths. *)
Theorem workspace_traversal_records_every_entry :
  forall path_join fuel denoLockPath denoLock catalog
         frontier registryDependencies collected registryDependencies' collected',
    drainWorkspaces path_join fuel denoLockPath denoLock catalog
      (frontier, registryDependencies, collected)
    = Ok ([], registryDependencies', collected') ->
    incl registryDependencies registryDependencies'
    /\ incl collected collected'
    /\ forall e e', In e frontier -> Follows catalog e e' ->
         In (Plain (path_join [denoLockPath; ".."; fst e'])) collected'
         /\ snd e' <> None.
Proof.
  intros path_join fuel denoLockPath denoLock catalog.
  apply drainWorkspaces_records.
Qed.

Lemma workspace_traversal_records_every_entry_witness :
  incl (@nil string) []
  /\ incl [] [Plain "/proj/app"; Plain "/proj/lib"]
  /\ forall e e',
      In e [("app", Some {| name := "app"; dependencies := None;
                            workspaceDependencies := Some ["lib"] |})] ->
      Follows [("app", {| name := "app"; dependencies := None;
                          workspaceDependencies := Some ["lib"] |});
               ("lib", {| name := "other"; dependencies := None;
                          workspaceDependencies := None |})] e e' ->
      In (Plain (Sample.join ["/proj/deno.lock"; ".."; fst e']))
         [Plain "/proj/app"; Plain "/proj/lib"]
      /\ snd e' <> None.
Proof.
  apply (workspace_traversal_records_every_entry Sample.join 3 "/proj/deno.lock"
           Examples.shadowed).
  reflexivity.
Defined.

(* ================================================================= *)
(** ** The workspace catalog *)

Section Catalog.

Lemma mapM_app {A B : Type} (f : A -> result B) (xs ys : list A) :
  mapM f (xs ++ ys)
  = (l1 <- mapM f xs ;; l2 <- mapM f ys ;; Ok (l1 ++ l2)%list).
Proof.
  induction xs as [|x xs IH]; simpl.
  - destruct (mapM f ys); reflexivity.
  - destruct (f x) as [y|e]; simpl; [|reflexivity].
    rewrite IH. destruct (mapM f xs) as [l1|e]; simpl; [|reflexivity].
    destruct (mapM f ys); reflexivity.
Qed.

Lemma mapM_all_Ok {A B : Type} (f : A -> result B) (xs : list A) :
  (forall x, In x xs -> exists y, f x = Ok y) -> exists ys, mapM f xs = Ok ys.
Proof.
  induction xs as [|x xs IH]; intros H; simpl.
  - eexists. reflexivity.
  - destruct (H x (or_introl eq_refl)) as [y ->]. simpl.
    destruct IH as [ys ->]; [intros z Hz; apply H; right; assumption|].
    eexists. reflexivity.
Qed.

End Catalog.

(** X12: with an allow-list, the package.json of every workspace member is
    read before anything is selected: the call throws for the first member
    whose package.json is missing, whether or not that member is named in
    the allow-list. *)
Theorem missing_package_json_is_fatal :
  forall path_join realpath readPackageJson denoLockPath denoLock
         packagedDependencies before localPath w after,
    iterDenoWorkspaceMembers denoLock = (before ++ (localPath, w) :: after)%list ->
    (forall member, In member before ->
       exists converted,
         withLocalDeps path_join readPackageJson denoLockPath member = Ok converted) ->
    readPackageJson (path_join [denoLockPath; ".."; localPath; "package.json"])
    = Missing ->
    selectDenoDependencies path_join realpath readPackageJson denoLockPath denoLock
      packagedDependencies
    = Throw (Error ("Could not find package.json in workspace " ++ localPath ++ " ")).
Proof.
  intros path_join realpath readPackageJson denoLockPath denoLock L
         before localPath w after Hmembers Hbefore Hmissing.
  unfold selectDenoDependencies. rewrite Hmembers, mapM_app.
  destruct (mapM_all_Ok _ _ Hbefore) as [l1 ->]. cbn [bind mapM].
  unfold withLocalDeps at 1. rewrite Hmissing. reflexivity.
Qed.

Lemma missing_package_json_is_fatal_witness :
  selectDenoDependencies Sample.join Sample.realpath
    (Sample.disk [("/proj/packages/app/package.json",
                   {| pj_name := Some "app"; pj_dependencies := None |})])
    "/proj/deno.lock" Examples.monorepo ["app"]
  = Throw (Error "Could not find package.json in workspace packages/lib ").
Proof.
  apply (missing_package_json_is_fatal Sample.join Sample.realpath _
           "/proj/deno.lock" Examples.monorepo ["app"]
           [("packages/app", Examples.member)] "packages/lib" Examples.member []).
  - reflexivity.
  - intros member [<- | []]. eexists. reflexivity.
  - reflexivity.
Defined.
